(** * mic-demo: the SQS batch processor of [src/functions/dlq-demo.ts]

    A shallow embedding of [processRecord] and [handler] and of the part of
    the JavaScript runtime they rely on: strings as sequences of UTF-16 code
    units, [JSON.parse], exceptions, [console] output, and promises driven by
    a single-threaded event loop with a virtual clock. *)

From Stdlib Require Import List NArith Arith Bool Ascii String Lia Permutation.
Import ListNotations.

Local Open Scope N_scope.

#[local] Set Warnings "-register-all".

(** ** JavaScript strings *)

(** A JavaScript string is a sequence of 16-bit code units.  The code units
    are kept as [N]; nothing below depends on the 16-bit bound. *)
Definition jsstring : Type := list N.

(** A string literal of the source, written in ASCII. *)
Definition js (s : string) : jsstring :=
  List.map N_of_ascii (list_ascii_of_string s).

(** [a + b] on strings, and the pieces of a template literal. *)
Definition concat (parts : list jsstring) : jsstring := List.concat parts.

Definition jsstring_eqb (a b : jsstring) : bool :=
  if list_eq_dec N.eq_dec a b then true else false.

(** ** JavaScript values *)

(** The values [JSON.parse] can produce, and [undefined], which a property
    read produces.  A number is kept as the text it was written with: the
    program never computes with one. *)
Inductive JSValue : Type :=
| JUndefined
| JNull
| JBool (b : bool)
| JNumber (lexeme : jsstring)
| JString (s : jsstring)
| JArray (elements : list JSValue)
| JObject (members : list (jsstring * JSValue)).

(** The errors the program can meet.  [SyntaxError] is what [JSON.parse]
    throws and [TypeError] what a property read on [null] throws; the text of
    their messages is chosen by the engine and is not modelled. *)
Inductive JSError : Type :=
| BusinessLogicError (message : jsstring)
| TemporaryError (message : jsstring)
| Error (message : jsstring)
| SyntaxError
| TypeError.

(** [v instanceof BusinessLogicError] and [v instanceof TemporaryError], for
    [v] an optional field: [undefined] is an instance of no class. *)
Definition instanceof_BusinessLogicError (v : option JSError) : bool :=
  match v with Some (BusinessLogicError _) => true | _ => false end.

Definition instanceof_TemporaryError (v : option JSError) : bool :=
  match v with Some (TemporaryError _) => true | _ => false end.

(** ** JSON.parse *)

(** [JSON.parse] is a builtin of the runtime.  It is modelled after the JSON
    grammar of ECMA-404: a lexer that reads the text one code unit at a time,
    and a parser that reads the tokens with a stack of open containers. *)
Module JSON.

Inductive token : Type :=
| TLBrace | TRBrace | TLBracket | TRBracket | TColon | TComma
| TString (s : jsstring)
| TNumber (lexeme : jsstring)
| TTrue | TFalse | TNull.

Definition is_ws (c : N) : bool :=
  (c =? 32) || (c =? 9) || (c =? 10) || (c =? 13).

Definition is_digit (c : N) : bool := (48 <=? c) && (c <=? 57).

Definition is_lower (c : N) : bool := (97 <=? c) && (c <=? 122).

(** The code units a number is written with: digits, [-], [+], [.], [e], [E]. *)
Definition is_number_char (c : N) : bool :=
  is_digit c || (c =? 45) || (c =? 43) || (c =? 46) || (c =? 101) || (c =? 69).

Definition hex_digit (c : N) : option N :=
  if is_digit c then Some (c - 48)
  else if (97 <=? c) && (c <=? 102) then Some (c - 87)
  else if (65 <=? c) && (c <=? 70) then Some (c - 55)
  else None.

(** *** Numbers

    An optional minus sign; then a single zero, or a digit from one to nine
    followed by any digits; then optionally a dot and one or more digits;
    then optionally [e] or [E], an optional sign and one or more digits. *)

Fixpoint skip_digits (s : jsstring) : jsstring :=
  match s with
  | c :: s' => if is_digit c then skip_digits s' else s
  | [] => []
  end.

Definition digits1 (s : jsstring) : option jsstring :=
  match s with
  | c :: s' => if is_digit c then Some (skip_digits s') else None
  | [] => None
  end.

Definition number_sign (s : jsstring) : jsstring :=
  match s with
  | c :: s' => if c =? 45 then s' else s
  | [] => []
  end.

Definition number_int (s : jsstring) : option jsstring :=
  match s with
  | c :: s' => if c =? 48 then Some s' else digits1 s
  | [] => None
  end.

Definition number_frac (s : jsstring) : option jsstring :=
  match s with
  | c :: s' => if c =? 46 then digits1 s' else Some s
  | [] => Some []
  end.

Definition number_exp (s : jsstring) : option jsstring :=
  match s with
  | c :: s' =>
      if (c =? 101) || (c =? 69) then
        match s' with
        | d :: s'' => if (d =? 43) || (d =? 45) then digits1 s'' else digits1 s'
        | [] => None
        end
      else Some s
  | [] => Some []
  end.

Definition is_number (lexeme : jsstring) : bool :=
  match number_int (number_sign lexeme) with
  | Some s1 =>
      match number_frac s1 with
      | Some s2 =>
          match number_exp s2 with
          | Some [] => true
          | _ => false
          end
      | None => false
      end
  | None => false
  end.

(** *** The lexer *)

(** What the lexer is in the middle of; the code units read so far are kept
    in reverse. *)
Inductive mode : Type :=
| Idle
| InString (acc : jsstring)
| InEscape (acc : jsstring)
| InUnicode (acc : jsstring) (digits : list N)
| InNumber (acc : jsstring)
| InWord (acc : jsstring).

Definition number_token (acc : jsstring) : option token :=
  let lexeme := rev acc in
  if is_number lexeme then Some (TNumber lexeme) else None.

Definition word_token (acc : jsstring) : option token :=
  let word := rev acc in
  if jsstring_eqb word (js "true") then Some TTrue
  else if jsstring_eqb word (js "false") then Some TFalse
  else if jsstring_eqb word (js "null") then Some TNull
  else None.

(** A code unit met between tokens. *)
Definition idle_step (c : N) : option (list token * mode) :=
  if is_ws c then Some ([], Idle)
  else if c =? 123 then Some ([TLBrace], Idle)
  else if c =? 125 then Some ([TRBrace], Idle)
  else if c =? 91 then Some ([TLBracket], Idle)
  else if c =? 93 then Some ([TRBracket], Idle)
  else if c =? 58 then Some ([TColon], Idle)
  else if c =? 44 then Some ([TComma], Idle)
  else if c =? 34 then Some ([], InString [])
  else if is_digit c || (c =? 45) then Some ([], InNumber [c])
  else if is_lower c then Some ([], InWord [c])
  else None.

(** The code unit an escape [\c] stands for ([\u] is handled apart). *)
Definition escape (c : N) : option N :=
  if c =? 34 then Some 34
  else if c =? 92 then Some 92
  else if c =? 47 then Some 47
  else if c =? 98 then Some 8
  else if c =? 102 then Some 12
  else if c =? 110 then Some 10
  else if c =? 114 then Some 13
  else if c =? 116 then Some 9
  else None.

(** The tokens a pending number or word ends with, then [c] between tokens. *)
Definition close_then (t : option token) (c : N) : option (list token * mode) :=
  match t, idle_step c with
  | Some t, Some (ts, m) => Some (t :: ts, m)
  | _, _ => None
  end.

Definition step (m : mode) (c : N) : option (list token * mode) :=
  match m with
  | Idle => idle_step c
  | InString acc =>
      if c =? 34 then Some ([TString (rev acc)], Idle)
      else if c =? 92 then Some ([], InEscape acc)
      else if c <? 32 then None
      else Some ([], InString (c :: acc))
  | InEscape acc =>
      if c =? 117 then Some ([], InUnicode acc [])
      else
        match escape c with
        | Some u => Some ([], InString (u :: acc))
        | None => None
        end
  | InUnicode acc digits =>
      match hex_digit c with
      | Some d =>
          match digits with
          | [d2; d1; d0] =>
              Some ([], InString (((d0 * 16 + d1) * 16 + d2) * 16 + d :: acc))
          | _ => Some ([], InUnicode acc (d :: digits))
          end
      | None => None
      end
  | InNumber acc =>
      if is_number_char c then Some ([], InNumber (c :: acc))
      else close_then (number_token acc) c
  | InWord acc =>
      if is_lower c then Some ([], InWord (c :: acc))
      else close_then (word_token acc) c
  end.

(** At the end of the text. *)
Definition finish (m : mode) : option (list token) :=
  match m with
  | Idle => Some []
  | InNumber acc => option_map (fun t => [t]) (number_token acc)
  | InWord acc => option_map (fun t => [t]) (word_token acc)
  | InString _ | InEscape _ | InUnicode _ _ => None
  end.

Fixpoint lex (m : mode) (text : jsstring) : option (list token) :=
  match text with
  | [] => finish m
  | c :: text' =>
      match step m c with
      | Some (ts, m') => option_map (app ts) (lex m' text')
      | None => None
      end
  end.

(** *** The parser *)

(** An open container waiting for the value being read. *)
Inductive frame : Type :=
| InArray (elements : list JSValue)
| InObject (members : list (jsstring * JSValue)) (key : jsstring).

Inductive state : Type :=
| Value (stack : list frame)
| ArrayOpen (stack : list frame)
| ObjectOpen (stack : list frame)
| Key (members : list (jsstring * JSValue)) (stack : list frame)
| Colon (members : list (jsstring * JSValue)) (key : jsstring) (stack : list frame)
| ArrayNext (elements : list JSValue) (stack : list frame)
| ObjectNext (members : list (jsstring * JSValue)) (stack : list frame)
| Done (v : JSValue).

(** A later member with the same key replaces the value of the earlier one. *)
Fixpoint set_member (k : jsstring) (v : JSValue) (members : list (jsstring * JSValue))
  : list (jsstring * JSValue) :=
  match members with
  | [] => [(k, v)]
  | (k', v') :: members' =>
      if jsstring_eqb k' k then (k', v) :: members'
      else (k', v') :: set_member k v members'
  end.

(** A value is complete: hand it to the innermost open container. *)
Definition reduce (v : JSValue) (stack : list frame) : state :=
  match stack with
  | [] => Done v
  | InArray elements :: stack' => ArrayNext (elements ++ [v]) stack'
  | InObject members key :: stack' => ObjectNext (set_member key v members) stack'
  end.

(** A token where a value starts. *)
Definition value_token (t : token) (stack : list frame) : option state :=
  match t with
  | TString s => Some (reduce (JString s) stack)
  | TNumber n => Some (reduce (JNumber n) stack)
  | TTrue => Some (reduce (JBool true) stack)
  | TFalse => Some (reduce (JBool false) stack)
  | TNull => Some (reduce JNull stack)
  | TLBracket => Some (ArrayOpen stack)
  | TLBrace => Some (ObjectOpen stack)
  | TRBrace | TRBracket | TColon | TComma => None
  end.

Definition parse_step (st : state) (t : token) : option state :=
  match st, t with
  | Value stack, _ => value_token t stack
  | ArrayOpen stack, TRBracket => Some (reduce (JArray []) stack)
  | ArrayOpen stack, _ => value_token t (InArray [] :: stack)
  | ObjectOpen stack, TRBrace => Some (reduce (JObject []) stack)
  | ObjectOpen stack, TString k => Some (Colon [] k stack)
  | Key members stack, TString k => Some (Colon members k stack)
  | Colon members k stack, TColon => Some (Value (InObject members k :: stack))
  | ArrayNext elements stack, TComma => Some (Value (InArray elements :: stack))
  | ArrayNext elements stack, TRBracket => Some (reduce (JArray elements) stack)
  | ObjectNext members stack, TComma => Some (Key members stack)
  | ObjectNext members stack, TRBrace => Some (reduce (JObject members) stack)
  | _, _ => None
  end.

Fixpoint parse_tokens (st : state) (ts : list token) : option JSValue :=
  match ts with
  | [] => match st with Done v => Some v | _ => None end
  | t :: ts' =>
      match parse_step st t with
      | Some st' => parse_tokens st' ts'
      | None => None
      end
  end.

(** [JSON.parse(text)]: [None] stands for the [SyntaxError] it throws. *)
Definition parse (text : jsstring) : option JSValue :=
  match lex Idle text with
  | Some ts => parse_tokens (Value []) ts
  | None => None
  end.

End JSON.

(** A double quote, which a Rocq string literal cannot hold unescaped. *)
Definition dq : jsstring := [34].

(** ** The records of the [aws-lambda] typings *)

(** The typings are imported by the source, not part of it; the fields are
    those of [SQSRecord], [SQSEvent], [Context] and [SQSBatchResponse] that a
    queue delivery carries.  The program reads [messageId] and [body] only. *)
Module SQSRecordAttributes.
Record t : Type := mk {
  ApproximateReceiveCount : jsstring;
  SentTimestamp : jsstring;
  SenderId : jsstring;
  ApproximateFirstReceiveTimestamp : jsstring
}.
End SQSRecordAttributes.

Module SQSRecord.
Record t : Type := mk {
  messageId : jsstring;
  receiptHandle : jsstring;
  body : jsstring;
  attributes : SQSRecordAttributes.t;
  messageAttributes : list (jsstring * jsstring);
  md5OfBody : jsstring;
  eventSource : jsstring;
  eventSourceARN : jsstring;
  awsRegion : jsstring
}.
End SQSRecord.

Module SQSEvent.
Record t : Type := mk { Records : list SQSRecord.t }.
End SQSEvent.

Module Context.
Record t : Type := mk {
  functionName : jsstring;
  awsRequestId : jsstring;
  remainingTimeInMillis : N
}.
End Context.

Module SQSBatchItemFailure.
Record t : Type := mk { itemIdentifier : jsstring }.
End SQSBatchItemFailure.

Module SQSBatchResponse.
Record t : Type := mk { batchItemFailures : list SQSBatchItemFailure.t }.
End SQSBatchResponse.

(** [interface ProcessingResult]: [error] is the optional field. *)
Module ProcessingResult.
Record t : Type := mk {
  success : bool;
  messageId : jsstring;
  error : option JSError
}.
End ProcessingResult.

(** ** Console output *)

Inductive LogArg : Type :=
| LString (s : jsstring)
| LNumber (n : nat)
| LValue (v : JSValue)
| LError (e : JSError).

Inductive LogEntry : Type :=
| console_log (args : list LogArg)
| console_error (args : list LogArg).

(** A template literal given to the console. *)
Definition template (parts : list jsstring) : LogArg := LString (concat parts).

(** ** Async function bodies *)

(** What the body of an async function does, step by step: it returns, throws,
    writes to the console and goes on, or suspends at
    [await new Promise(resolve => setTimeout(resolve, ms))] and goes on when
    the timer fires. *)
Inductive Async (A : Type) : Type :=
| Return (a : A)
| Throw (e : JSError)
| Console (entry : LogEntry) (k : Async A)
| Await_timeout (ms : N) (k : Async A).

Arguments Return {A} a.
Arguments Throw {A} e.
Arguments Console {A} entry k.
Arguments Await_timeout {A} ms k.

Fixpoint bind {A B : Type} (m : Async A) (f : A -> Async B) : Async B :=
  match m with
  | Return a => f a
  | Throw e => Throw e
  | Console entry k => Console entry (bind k f)
  | Await_timeout ms k => Await_timeout ms (bind k f)
  end.

(** [try { m } catch (error) { h error }]. *)
Fixpoint try_catch {A : Type} (m : Async A) (h : JSError -> Async A) : Async A :=
  match m with
  | Return a => Return a
  | Throw e => h e
  | Console entry k => Console entry (try_catch k h)
  | Await_timeout ms k => Await_timeout ms (try_catch k h)
  end.

Declare Scope async_scope.
Delimit Scope async_scope with async.
Bind Scope async_scope with Async.

Notation "x <- m ;; k" := (bind m (fun x => k))
  (at level 61, m at next level, right associativity) : async_scope.
Notation "m ;; k" := (bind m (fun _ => k))
  (at level 61, right associativity) : async_scope.
Notation "'try' m 'catch' h" := (try_catch m h)
  (at level 10, m at level 200, h at level 200) : async_scope.

Definition log (args : list LogArg) : Async unit :=
  Console (console_log args) (Return tt).

Definition log_error (args : list LogArg) : Async unit :=
  Console (console_error args) (Return tt).

Definition setTimeout_await (ms : N) : Async unit :=
  Await_timeout ms (Return tt).

(** [JSON.parse(text)] as a step of an async body. *)
Definition JSON_parse (text : jsstring) : Async JSValue :=
  match JSON.parse text with
  | Some v => Return v
  | None => Throw SyntaxError
  end.

Fixpoint lookup (name : jsstring) (members : list (jsstring * JSValue)) : JSValue :=
  match members with
  | [] => JUndefined
  | (k, v) :: members' => if jsstring_eqb k name then v else lookup name members'
  end.

(** [v.type].  Reading a property of [null] or [undefined] throws; an object
    gives its member, or [undefined] without one; no other value has a
    property of that name. *)
Definition get_type (v : JSValue) : Async JSValue :=
  match v with
  | JNull | JUndefined => Throw TypeError
  | JObject members => Return (lookup (js "type") members)
  | JBool _ | JNumber _ | JString _ | JArray _ => Return JUndefined
  end.

(** [v === 'literal']. *)
Definition strict_eq (v : JSValue) (literal : jsstring) : bool :=
  match v with
  | JString s => jsstring_eqb s literal
  | _ => false
  end.

(** ** processRecord *)

Local Open Scope async_scope.

Definition processRecord (record : SQSRecord.t) : Async ProcessingResult.t :=
  body <- JSON_parse (SQSRecord.body record) ;;
  try (
    type1 <- get_type body ;;
    if strict_eq type1 (js "business-error") then
      Throw (BusinessLogicError (js "Invalid business logic"))
    else
    type2 <- get_type body ;;
    if strict_eq type2 (js "temporary-error") then
      Throw (TemporaryError (js "Temporary processing error"))
    else
    type3 <- get_type body ;;
    if strict_eq type3 (js "timeout") then
      setTimeout_await 5000 ;;
      Throw (Error (js "Operation timed out"))
    else
    log [LString (js "Successfully processed record:"); LValue body] ;;
    Return (ProcessingResult.mk true (SQSRecord.messageId record) None)
  ) catch (fun error =>
    log_error [template [js "Error processing record ";
                         SQSRecord.messageId record; js ":"];
               LError error] ;;
    Return (ProcessingResult.mk false (SQSRecord.messageId record) (Some error))).

Local Close Scope async_scope.

(** ** The event loop *)

(** The state of the runtime during one invocation: a virtual clock in
    milliseconds, and what has been written to the console, each entry with
    the time it was written at.  Synchronous code takes no time. *)
Record Loop : Type := mkLoop {
  now : N;
  console : list (N * LogEntry)
}.

Definition emit (entry : LogEntry) (l : Loop) : Loop :=
  mkLoop (now l) (console l ++ [(now l, entry)]).

(** The clock moves to the deadline of the timer that fires. *)
Definition advance (deadline : N) (l : Loop) : Loop :=
  mkLoop (N.max (now l) deadline) (console l).

(** The promise an async function call returns: settled, or suspended at an
    [await] until a timer fires at [deadline]. *)
Inductive Promise (A : Type) : Type :=
| Fulfilled (a : A)
| Rejected (e : JSError)
| Suspended (deadline : N) (k : Async A).

Arguments Fulfilled {A} a.
Arguments Rejected {A} e.
Arguments Suspended {A} deadline k.

(** Run a body until it settles or suspends. *)
Fixpoint run {A : Type} (m : Async A) (l : Loop) : Loop * Promise A :=
  match m with
  | Return a => (l, Fulfilled a)
  | Throw e => (l, Rejected e)
  | Console entry k => run k (emit entry l)
  | Await_timeout ms k => (l, Suspended (now l + ms) k)
  end.

(** How an awaited operation ends for the async function that awaits it.
    [Hung] is kept for a loop that has used up its steps with a timer left;
    [Promise_all_never_Hung] shows that this does not happen. *)
Inductive Outcome (A : Type) : Type :=
| Returned (a : A)
| Thrown (e : JSError)
| Hung.

Arguments Returned {A} a.
Arguments Thrown {A} e.
Arguments Hung {A}.

Section PromiseAll.
Context {A : Type}.

(** The rejection [Promise.all] reports: that of the first rejected promise
    of the list. *)
Fixpoint first_rejected (ps : list (Promise A)) : option JSError :=
  match ps with
  | [] => None
  | Rejected e :: _ => Some e
  | _ :: ps' => first_rejected ps'
  end.

(** The earliest deadline among the pending timers. *)
Fixpoint next_deadline (ps : list (Promise A)) : option N :=
  match ps with
  | [] => None
  | Suspended d _ :: ps' =>
      match next_deadline ps' with
      | Some d' => Some (N.min d d')
      | None => Some d
      end
  | _ :: ps' => next_deadline ps'
  end.

(** The timer with deadline [d] that was set first fires: its body resumes. *)
Fixpoint fire (d : N) (ps : list (Promise A)) (l : Loop) : Loop * list (Promise A) :=
  match ps with
  | [] => (l, [])
  | Suspended d' k :: ps' =>
      if d' =? d then
        let (l', p) := run k l in (l', p :: ps')
      else
        let (l', ps'') := fire d ps' l in (l', Suspended d' k :: ps'')
  | p :: ps' =>
      let (l', ps'') := fire d ps' l in (l', p :: ps'')
  end.

(** The fulfilment values, in the order of the promises. *)
Fixpoint values (ps : list (Promise A)) : list A :=
  match ps with
  | [] => []
  | Fulfilled a :: ps' => a :: values ps'
  | _ :: ps' => values ps'
  end.

(** [await Promise.all(ps)]: as soon as one promise is rejected the await
    throws its error; when all are fulfilled it returns their values in the
    order of [ps]; otherwise the loop waits for the next timer. *)
Fixpoint await_all (steps : nat) (ps : list (Promise A)) (l : Loop)
  : Loop * Outcome (list A) :=
  match first_rejected ps with
  | Some e => (l, Thrown e)
  | None =>
      match next_deadline ps with
      | None => (l, Returned (values ps))
      | Some d =>
          match steps with
          | O => (l, Hung)
          | S steps' =>
              let (l', ps') := fire d ps (advance d l) in
              await_all steps' ps' l'
          end
      end
  end.

(** The timers a body can still set, and those a list of promises can. *)
Fixpoint timers_of (m : Async A) : nat :=
  match m with
  | Return _ | Throw _ => O
  | Console _ k => timers_of k
  | Await_timeout _ k => S (timers_of k)
  end.

Fixpoint timers (ps : list (Promise A)) : nat :=
  match ps with
  | [] => O
  | Suspended _ k :: ps' => S (timers_of k + timers ps')
  | _ :: ps' => timers ps'
  end.

Definition Promise_all (ps : list (Promise A)) (l : Loop) : Loop * Outcome (list A) :=
  await_all (timers ps) ps l.

End PromiseAll.

(** ** The handler's own steps *)

(** The handler is the async function the runtime invokes; its steps act on
    the loop directly. *)
Definition Main (A : Type) : Type := Loop -> Loop * Outcome A.

Definition ret {A : Type} (a : A) : Main A := fun l => (l, Returned a).

Definition bindM {A B : Type} (m : Main A) (f : A -> Main B) : Main B :=
  fun l =>
    match m l with
    | (l', Returned a) => f a l'
    | (l', Thrown e) => (l', Thrown e)
    | (l', Hung) => (l', Hung)
    end.

Declare Scope main_scope.
Delimit Scope main_scope with main.

Notation "x <- m ;; k" := (bindM m (fun x => k))
  (at level 61, m at next level, right associativity) : main_scope.
Notation "m ;; k" := (bindM m (fun _ => k))
  (at level 61, right associativity) : main_scope.

(** [console.log(...)] in the handler. *)
Definition console_log_ (args : list LogArg) : Main unit :=
  fun l => (emit (console_log args) l, Returned tt).

(** Calling an async function: its body runs up to its first [await]. *)
Definition call {A : Type} (m : Async A) : Main (Promise A) :=
  fun l => let (l', p) := run m l in (l', Returned p).

(** [for (const x of xs) out.push(f(x))]. *)
Fixpoint for_of_push {X Y : Type} (xs : list X) (f : X -> Main Y) : Main (list Y) :=
  match xs with
  | [] => ret []
  | x :: xs' =>
      bindM (f x) (fun y => bindM (for_of_push xs' f) (fun ys => ret (y :: ys)))
  end.

(** [xs.forEach(f)], where [f] updates a captured variable of type [S]. *)
Fixpoint forEach {X S : Type} (xs : list X) (f : S -> X -> Main S) (s : S) : Main S :=
  match xs with
  | [] => ret s
  | x :: xs' => bindM (f s x) (fun s' => forEach xs' f s')
  end.

(** ** handler *)

Local Open Scope main_scope.

Definition handler (event : SQSEvent.t) (context : Context.t) : Main SQSBatchResponse.t :=
  console_log_ [LString (js "Processing batch of:");
                LNumber (List.length (SQSEvent.Records event))] ;;
  processingPromises <-
    for_of_push (SQSEvent.Records event) (fun record => call (processRecord record)) ;;
  results <- Promise_all processingPromises ;;
  batchItemFailures <-
    forEach results (fun batchItemFailures result =>
      if negb (ProcessingResult.success result) then
        let batchItemFailures :=
          batchItemFailures
            ++ [SQSBatchItemFailure.mk (ProcessingResult.messageId result)] in
        (if instanceof_BusinessLogicError (ProcessingResult.error result) then
           console_log_ [template [js "Business logic error for message ";
                                   ProcessingResult.messageId result;
                                   js " - will be sent to DLQ after max retries"]]
         else if instanceof_TemporaryError (ProcessingResult.error result) then
           console_log_ [template [js "Temporary error for message ";
                                   ProcessingResult.messageId result;
                                   js " - will retry"]]
         else
           console_log_ [template [js "Unknown error for message ";
                                   ProcessingResult.messageId result;
                                   js " - will retry"]]) ;;
        ret batchItemFailures
      else
        console_log_ [template [js "Successfully processed message ";
                                ProcessingResult.messageId result]] ;;
        ret batchItemFailures) [] ;;
  ret (SQSBatchResponse.mk batchItemFailures).

Local Close Scope main_scope.

(** One invocation by the Lambda runtime, which starts the clock. *)
Definition invoke (event : SQSEvent.t) (context : Context.t)
  : Loop * Outcome SQSBatchResponse.t :=
  handler event context (mkLoop 0 []).

(** ** What a body does, read off its steps *)

(** The state a body ends in once every timer it sets has fired. *)
Fixpoint settle {A : Type} (m : Async A) : Promise A :=
  match m with
  | Return a => Fulfilled a
  | Throw e => Rejected e
  | Console _ k => settle k
  | Await_timeout _ k => settle k
  end.

(** The time a body spends waiting for timers. *)
Fixpoint delay {A : Type} (m : Async A) : N :=
  match m with
  | Return _ | Throw _ => 0
  | Console _ k => delay k
  | Await_timeout ms k => ms + delay k
  end.

(** What a body writes before its first [await], and the state it is in then
    when called at time [t]. *)
Fixpoint prefix_logs {A : Type} (m : Async A) : list LogEntry :=
  match m with
  | Console entry k => entry :: prefix_logs k
  | Return _ | Throw _ | Await_timeout _ _ => []
  end.

Fixpoint suspend {A : Type} (t : N) (m : Async A) : Promise A :=
  match m with
  | Return a => Fulfilled a
  | Throw e => Rejected e
  | Console _ k => suspend t k
  | Await_timeout ms k => Suspended (t + ms) k
  end.

Definition emit_all (entries : list LogEntry) (l : Loop) : Loop :=
  mkLoop (now l) (console l ++ List.map (pair (now l)) entries).

(** A promise once its timers have fired, and what its body writes when the
    pending timer fires. *)
Definition settleP {A : Type} (p : Promise A) : Promise A :=
  match p with
  | Suspended _ k => settle k
  | Fulfilled _ | Rejected _ => p
  end.

Definition late_logs {A : Type} (p : Promise A) : list LogEntry :=
  match p with
  | Suspended _ k => prefix_logs k
  | Fulfilled _ | Rejected _ => []
  end.

(** A promise that is fulfilled, or waits for one timer at [d] and is
    fulfilled when it fires. *)
Definition single_wait {A : Type} (d : N) (p : Promise A) : Prop :=
  match p with
  | Fulfilled _ => True
  | Rejected _ => False
  | Suspended d' k => d' = d /\ timers_of k = O /\ exists a, settle k = Fulfilled a
  end.

(** ** What the handler does with the results *)

(** The payload's [type] is the given literal: the test [body.type === literal]
    of the source is evaluated and holds. *)
Definition type_is (v : JSValue) (literal : jsstring) : bool :=
  match get_type v with
  | Return t => strict_eq t literal
  | _ => false
  end.

(** The body of the record parses, and the parsed payload has that [type]. *)
Definition parses (record : SQSRecord.t) : bool :=
  match JSON.parse (SQSRecord.body record) with Some _ => true | None => false end.

Definition record_type_is (record : SQSRecord.t) (literal : jsstring) : bool :=
  match JSON.parse (SQSRecord.body record) with
  | Some v => type_is v literal
  | None => false
  end.

(** The two ways [processRecord] ends: in its [catch] block with the error
    caught, or at the end of its [try] block. *)
Definition failed_with (record : SQSRecord.t) (e : JSError) : Async ProcessingResult.t :=
  Console
    (console_error [template [js "Error processing record ";
                              SQSRecord.messageId record; js ":"];
                    LError e])
    (Return (ProcessingResult.mk false (SQSRecord.messageId record) (Some e))).

Definition succeeded (record : SQSRecord.t) (v : JSValue) : Async ProcessingResult.t :=
  Console
    (console_log [LString (js "Successfully processed record:"); LValue v])
    (Return (ProcessingResult.mk true (SQSRecord.messageId record) None)).

Definition is_nullish (v : JSValue) : bool :=
  match v with
  | JNull | JUndefined => true
  | _ => false
  end.

(** [processRecord] by cases on the payload, to be compared with the
    definition read off the source ([processRecord_eq]). *)
Definition processRecord_by_cases (record : SQSRecord.t) : Async ProcessingResult.t :=
  match JSON.parse (SQSRecord.body record) with
  | None => Throw SyntaxError
  | Some v =>
      if is_nullish v then failed_with record TypeError
      else if type_is v (js "business-error") then
        failed_with record (BusinessLogicError (js "Invalid business logic"))
      else if type_is v (js "temporary-error") then
        failed_with record (TemporaryError (js "Temporary processing error"))
      else if type_is v (js "timeout") then
        Await_timeout 5000 (failed_with record (Error (js "Operation timed out")))
      else succeeded record v
  end.

(** The record's processing ends with an unsuccessful result. *)
Definition fails (record : SQSRecord.t) : bool :=
  match settle (processRecord record) with
  | Fulfilled result => negb (ProcessingResult.success result)
  | _ => false
  end.

(** The line the handler writes for a result. *)
Definition report (result : ProcessingResult.t) : LogEntry :=
  let id := ProcessingResult.messageId result in
  if ProcessingResult.success result then
    console_log [template [js "Successfully processed message "; id]]
  else if instanceof_BusinessLogicError (ProcessingResult.error result) then
    console_log [template [js "Business logic error for message "; id;
                           js " - will be sent to DLQ after max retries"]]
  else if instanceof_TemporaryError (ProcessingResult.error result) then
    console_log [template [js "Temporary error for message "; id; js " - will retry"]]
  else
    console_log [template [js "Unknown error for message "; id; js " - will retry"]].

(** The entries the handler pushes for a list of results. *)
Definition failures (results : list ProcessingResult.t) : list SQSBatchItemFailure.t :=
  List.map (fun result => SQSBatchItemFailure.mk (ProcessingResult.messageId result))
    (List.filter (fun result => negb (ProcessingResult.success result)) results).

(** The identifiers a response lists. *)
Definition failed_ids (response : SQSBatchResponse.t) : list jsstring :=
  List.map SQSBatchItemFailure.itemIdentifier (SQSBatchResponse.batchItemFailures response).

(** The results of a batch, once all are in. *)
Definition results_of (records : list SQSRecord.t) : list ProcessingResult.t :=
  values (List.map (fun record => settle (processRecord record)) records).

(** Some record of the batch has a [timeout] payload. *)
Definition has_timeout (records : list SQSRecord.t) : bool :=
  existsb (fun record => record_type_is record (js "timeout")) records.

(** The console of an invocation in which every body parses. *)
Definition console_of (records : list SQSRecord.t) : list (N * LogEntry) :=
  let T := if has_timeout records then 5000 else 0 in
  (0, console_log [LString (js "Processing batch of:"); LNumber (List.length records)])
    :: List.map (pair 0) (flat_map (fun record => prefix_logs (processRecord record)) records)
    ++ List.map (pair 5000)
         (flat_map (fun record => late_logs (suspend 0 (processRecord record))) records)
    ++ List.map (pair T) (List.map report (results_of records)).


(** ** Sample deliveries *)

(** The body [{"type":"..."}] with the given type. *)
Definition body_of_type (t : string) : jsstring :=
  concat [js "{"; dq; js "type"; dq; js ":"; dq; js t; dq; js "}"].

Definition sample_attributes (receiveCount : string) : SQSRecordAttributes.t :=
  SQSRecordAttributes.mk (js receiveCount) (js "1700000000000") (js "AIDAEXAMPLE")
    (js "1700000000123").

Definition sample_record (id : string) (body : jsstring) (receiveCount : string)
  : SQSRecord.t :=
  SQSRecord.mk (js id) (js "handle") body (sample_attributes receiveCount) []
    (js "md5") (js "aws:sqs") (js "arn:aws:sqs:us-east-1:000000000000:demo-queue")
    (js "us-east-1").

Definition sample_context : Context.t :=
  Context.mk (js "demo-lambda-with-dlq") (js "req-1") 30000.

Definition ok_record : SQSRecord.t := sample_record "m-1" (body_of_type "ok") "1".
Definition business_record : SQSRecord.t :=
  sample_record "m-2" (body_of_type "business-error") "1".
Definition temporary_record : SQSRecord.t :=
  sample_record "m-3" (body_of_type "temporary-error") "1".
Definition timeout_record : SQSRecord.t := sample_record "m-4" (body_of_type "timeout") "1".
Definition null_record : SQSRecord.t := sample_record "m-5" (js "null") "1".
Definition unparsable_record : SQSRecord.t := sample_record "m-6" (js "not json") "1".

(** The second delivery of [business_record]: the queue has raised its
    receive count. *)
Definition business_record_again : SQSRecord.t :=
  sample_record "m-2" (body_of_type "business-error") "2".

Definition sample_event : SQSEvent.t :=
  SQSEvent.mk [ok_record; business_record; temporary_record].

Definition mixed_event : SQSEvent.t :=
  SQSEvent.mk [timeout_record; ok_record; business_record; null_record].


(** ** Everything a body writes *)

(** The console entries of a body, those after its timers included. *)
Fixpoint logs {A : Type} (m : Async A) : list LogEntry :=
  match m with
  | Console entry k => entry :: logs k
  | Await_timeout _ k => logs k
  | Return _ | Throw _ => []
  end.

Definition is_console_error (entry : LogEntry) : bool :=
  match entry with
  | console_error _ => true
  | console_log _ => false
  end.

(** ** Basic facts *)

Lemma jsstring_eqb_eq (a b : jsstring) : jsstring_eqb a b = true <-> a = b.
Proof.
  unfold jsstring_eqb. destruct (list_eq_dec N.eq_dec a b); split; congruence.
Qed.

Lemma jsstring_eqb_refl (a : jsstring) : jsstring_eqb a a = true.
Proof. now apply jsstring_eqb_eq. Qed.

Lemma emit_all_nil (l : Loop) : emit_all [] l = l.
Proof. destruct l. unfold emit_all. simpl. now rewrite app_nil_r. Qed.

Lemma emit_all_cons (entry : LogEntry) (entries : list LogEntry) (l : Loop) :
  emit_all (entry :: entries) l = emit_all entries (emit entry l).
Proof. unfold emit_all, emit. simpl. now rewrite <- app_assoc. Qed.

Lemma emit_all_app (es1 es2 : list LogEntry) (l : Loop) :
  emit_all (es1 ++ es2) l = emit_all es2 (emit_all es1 l).
Proof. unfold emit_all. simpl. now rewrite map_app, app_assoc. Qed.

Lemma now_emit_all (entries : list LogEntry) (l : Loop) : now (emit_all entries l) = now l.
Proof. reflexivity. Qed.

(** Running a body: its first entries are written and it settles or suspends. *)
Lemma run_eq {A : Type} (m : Async A) (l : Loop) :
  run m l = (emit_all (prefix_logs m) l, suspend (now l) m).
Proof.
  revert l. induction m as [a | e | entry k IH | ms k IH]; intro l; simpl.
  - now rewrite emit_all_nil.
  - now rewrite emit_all_nil.
  - now rewrite IH, emit_all_cons.
  - now rewrite emit_all_nil.
Qed.

Lemma settleP_suspend {A : Type} (t : N) (m : Async A) : settleP (suspend t m) = settle m.
Proof. induction m; simpl; auto. Qed.

Lemma suspend_no_timers {A : Type} (t : N) (m : Async A) :
  timers_of m = O -> suspend t m = settle m.
Proof. induction m; simpl; intro H; auto; discriminate. Qed.

(** Calling the async function on every element, in order. *)
Lemma for_of_push_call {X A : Type} (f : X -> Async A) (xs : list X) (l : Loop) :
  for_of_push xs (fun x => call (f x)) l
  = (emit_all (flat_map (fun x => prefix_logs (f x)) xs) l,
     Returned (List.map (fun x => suspend (now l) (f x)) xs)).
Proof.
  revert l. induction xs as [| x xs IH]; intro l; simpl.
  - unfold ret. now rewrite emit_all_nil.
  - unfold bindM, call. rewrite run_eq. rewrite IH. unfold ret.
    now rewrite emit_all_app.
Qed.

(** The handler, with its two loops read off: the calls, the await, and one
    line and at most one entry per result. *)
Lemma handler_eq (event : SQSEvent.t) (context : Context.t) (l : Loop) :
  handler event context l
  = let records := SQSEvent.Records event in
    let l1 :=
      emit_all
        (console_log [LString (js "Processing batch of:"); LNumber (List.length records)]
           :: flat_map (fun record => prefix_logs (processRecord record)) records) l in
    match Promise_all
            (List.map (fun record => suspend (now l) (processRecord record)) records) l1 with
    | (l2, Returned results) =>
        (emit_all (List.map report results) l2,
         Returned (SQSBatchResponse.mk (failures results)))
    | (l2, Thrown e) => (l2, Thrown e)
    | (l2, Hung) => (l2, Hung)
    end.
Proof.
  unfold handler. cbv zeta.
  unfold bindM at 1. unfold console_log_ at 1.
  unfold bindM at 1. rewrite for_of_push_call.
  rewrite <- emit_all_cons. simpl now.
  unfold bindM at 1.
  match goal with |- context [Promise_all ?ps ?l1] => destruct (Promise_all ps l1) as [l2 [results | e |]] end;
    try reflexivity.
  unfold bindM at 1.
  match goal with
  | |- context [forEach results ?f []] =>
      assert (H : forall rs acc l0,
                 forEach rs f acc l0
                 = (emit_all (List.map report rs) l0, Returned (acc ++ failures rs)))
  end.
  { induction rs as [| r rs IH]; intros acc l0.
    - simpl. unfold ret, failures. simpl. now rewrite emit_all_nil, app_nil_r.
    - simpl forEach. unfold bindM at 1.
      unfold failures, report. simpl.
      destruct (ProcessingResult.success r); simpl.
      + unfold bindM at 1. unfold console_log_ at 1. unfold ret at 1.
        rewrite IH. now rewrite emit_all_cons.
      + unfold bindM at 1.
        destruct (instanceof_BusinessLogicError (ProcessingResult.error r));
          [| destruct (instanceof_TemporaryError (ProcessingResult.error r))];
          unfold console_log_ at 1; unfold ret at 1; rewrite IH;
          rewrite emit_all_cons; unfold failures; now rewrite <- app_assoc. }
  rewrite H. reflexivity.
Qed.

(** ** The event loop settles *)

Section Settles.
Context {A : Type}.
Implicit Types (ps : list (Promise A)) (l : Loop) (d : N).

Lemma timers_cons (p : Promise A) ps : timers (p :: ps) = (timers [p] + timers ps)%nat.
Proof. destruct p; simpl; lia. Qed.

Lemma timers_suspend (t : N) (m : Async A) : timers [suspend t m] = timers_of m.
Proof. induction m; simpl in *; auto; lia. Qed.

Lemma next_deadline_In ps d :
  next_deadline ps = Some d -> exists k, In (Suspended d k) ps.
Proof.
  revert d. induction ps as [| p ps IH]; intros d H; simpl in H; [discriminate |].
  destruct p as [a | e | d' k].
  - destruct (IH d H) as [k' Hk]. exists k'. now right.
  - destruct (IH d H) as [k' Hk]. exists k'. now right.
  - destruct (next_deadline ps) as [d'' |].
    + injection H as H.
      destruct (N.min_spec d' d'') as [[_ Hm] | [_ Hm]]; rewrite Hm in H; subst d.
      * exists k. now left.
      * destruct (IH d'' eq_refl) as [k' Hk]. exists k'. now right.
    + injection H as H. subst d. exists k. now left.
Qed.

Lemma fire_timers d ps l :
  (exists k, In (Suspended d k) ps) -> S (timers (snd (fire d ps l))) = timers ps.
Proof.
  revert l. induction ps as [| p ps IH]; intros l [k Hk]; [destruct Hk |].
  destruct p as [a | e | d' k'].
  - destruct Hk as [Hk | Hk]; [discriminate |].
    simpl. specialize (IH l (ex_intro _ k Hk)).
    destruct (fire d ps l) as [l' ps']. simpl in *. exact IH.
  - destruct Hk as [Hk | Hk]; [discriminate |].
    simpl. specialize (IH l (ex_intro _ k Hk)).
    destruct (fire d ps l) as [l' ps']. simpl in *. exact IH.
  - simpl. destruct (N.eqb_spec d' d) as [Heq | Hne].
    + rewrite run_eq. simpl snd. rewrite timers_cons, timers_suspend. lia.
    + destruct Hk as [Hk | Hk]; [congruence |].
      specialize (IH l (ex_intro _ k Hk)).
      destruct (fire d ps l) as [l' ps']. simpl in *. lia.
Qed.

Lemma await_all_never_Hung (steps : nat) ps l :
  (timers ps <= steps)%nat -> snd (await_all steps ps l) <> Hung.
Proof.
  revert ps l. induction steps as [| steps IH]; intros ps l Hle; simpl.
  - destruct (first_rejected ps); [simpl; discriminate |].
    destruct (next_deadline ps) as [d |] eqn:Hd; [| simpl; discriminate].
    apply next_deadline_In in Hd.
    pose proof (fire_timers d ps l Hd). lia.
  - destruct (first_rejected ps); [simpl; discriminate |].
    destruct (next_deadline ps) as [d |] eqn:Hd; [| simpl; discriminate].
    apply next_deadline_In in Hd.
    pose proof (fire_timers d ps (advance d l) Hd) as Hf.
    destruct (fire d ps (advance d l)) as [l' ps']. simpl in Hf.
    apply IH. lia.
Qed.

(** [await Promise.all(ps)] never stays pending: it returns or throws. *)
Lemma Promise_all_never_Hung ps l : snd (Promise_all ps l) <> Hung.
Proof. apply await_all_never_Hung. lia. Qed.

(** A rejected promise in the list: the await throws at once, with the
    error of the first one. *)
Lemma Promise_all_rejected ps l (e : JSError) :
  first_rejected ps = Some e -> Promise_all ps l = (l, Thrown e).
Proof.
  intro H. unfold Promise_all. destruct (timers ps); simpl; now rewrite H.
Qed.

(** *** Promises that wait for at most one timer, all at the same deadline *)

Lemma single_wait_first_rejected d ps :
  Forall (single_wait d) ps -> first_rejected ps = None.
Proof.
  induction 1 as [| p ps Hp _ IH]; simpl; auto.
  destruct p; simpl in Hp; auto. destruct Hp.
Qed.

Lemma single_wait_timers_0 d ps :
  Forall (single_wait d) ps -> timers ps = O ->
  next_deadline ps = None /\ List.map settleP ps = ps /\ flat_map late_logs ps = [].
Proof.
  induction 1 as [| p ps Hp _ IH]; simpl; intro H0; auto.
  destruct p; simpl in *; try discriminate; try tauto.
  destruct (IH H0) as (H1 & H2 & H3). repeat split; auto. now rewrite H2.
Qed.

Lemma single_wait_next_deadline d ps :
  Forall (single_wait d) ps -> timers ps <> O -> next_deadline ps = Some d.
Proof.
  induction 1 as [| p ps Hp Hps IH]; simpl; intro H0; [congruence |].
  destruct p as [a | e | d' k]; simpl in *; try tauto.
  destruct Hp as (-> & Hk & _).
  destruct (Nat.eq_dec (timers ps) 0) as [Hz | Hnz].
  - destruct (single_wait_timers_0 d ps Hps Hz) as (-> & _). reflexivity.
  - rewrite (IH Hnz). now rewrite N.min_id.
Qed.

(** Firing the first timer: its body writes its entries and is fulfilled. *)
Lemma single_wait_fire d ps l :
  Forall (single_wait d) ps -> timers ps <> O ->
  exists entries ps',
    fire d ps l = (emit_all entries l, ps')
    /\ Forall (single_wait d) ps'
    /\ S (timers ps') = timers ps
    /\ flat_map late_logs ps = entries ++ flat_map late_logs ps'
    /\ List.map settleP ps' = List.map settleP ps.
Proof.
  induction 1 as [| p ps Hp Hps IH]; simpl; intro H0; [congruence |].
  destruct p as [a | e | d' k]; simpl in Hp.
  - destruct (IH H0) as (entries & ps' & Hf & H1 & H2 & H3 & H4).
    exists entries, (Fulfilled a :: ps'). rewrite Hf. simpl.
    repeat split; auto. now rewrite H4.
  - destruct Hp.
  - destruct Hp as (-> & Hk & a & Ha).
    rewrite N.eqb_refl, run_eq, (suspend_no_timers _ _ Hk), Ha.
    exists (prefix_logs k), (Fulfilled a :: ps). simpl.
    repeat split; auto.
    + constructor; simpl; auto.
    + rewrite Hk. reflexivity.
    + now rewrite Ha.
Qed.

(** The await returns the values in the order of the promises; if a timer
    was pending the clock stands at the deadline, and what the resumed
    bodies wrote is stamped with it. *)
Lemma single_wait_await_all d (steps : nat) ps l :
  Forall (single_wait d) ps -> (timers ps <= steps)%nat -> now l <= d ->
  await_all steps ps l
  = (mkLoop (if Nat.eqb (timers ps) 0 then now l else d)
            (console l ++ List.map (pair d) (flat_map late_logs ps)),
     Returned (values (List.map settleP ps))).
Proof.
  revert ps l. induction steps as [| steps IH]; intros ps l Hps Hle Hnow.
  - assert (Hz : timers ps = O) by lia.
    destruct (single_wait_timers_0 d ps Hps Hz) as (H1 & H2 & H3).
    simpl. rewrite (single_wait_first_rejected d ps Hps), H1, H2, H3, Hz.
    simpl. rewrite app_nil_r. now destruct l.
  - destruct (Nat.eq_dec (timers ps) 0) as [Hz | Hnz].
    + destruct (single_wait_timers_0 d ps Hps Hz) as (H1 & H2 & H3).
      simpl. rewrite (single_wait_first_rejected d ps Hps), H1, H2, H3, Hz.
      simpl. rewrite app_nil_r. now destruct l.
    + simpl. rewrite (single_wait_first_rejected d ps Hps).
      rewrite (single_wait_next_deadline d ps Hps Hnz).
      destruct (single_wait_fire d ps (advance d l) Hps Hnz)
        as (entries & ps' & Hf & H1 & H2 & H3 & H4).
      rewrite Hf. rewrite IH; auto; [| lia | simpl; lia].
      rewrite H3, H4. simpl.
      assert (Hmax : N.max (now l) d = d) by lia. rewrite Hmax.
      destruct (Nat.eqb_spec (timers ps) 0) as [? | _]; [contradiction |].
      rewrite map_app, app_assoc.
      now destruct (Nat.eqb (timers ps') 0).
Qed.

End Settles.

(** ** JSON.parse on sample texts *)

Example parse_object : JSON.parse (body_of_type "ok") = Some (JObject [(js "type", JString (js "ok"))]).
Proof. reflexivity. Qed.

Example parse_null : JSON.parse (js "null") = Some JNull.
Proof. reflexivity. Qed.

Example parse_array :
  JSON.parse (js " [1, -2.5e3, true, [], {}] ")
  = Some (JArray [JNumber (js "1"); JNumber (js "-2.5e3"); JBool true; JArray []; JObject []]).
Proof. reflexivity. Qed.

(** An escaped key is the key it spells, and the last of two members with
    the same key is the one kept. *)
Example parse_escape_and_duplicate :
  JSON.parse (concat [js "{"; dq; js "\u0074ype"; dq; js ":1,"; dq; js "type"; dq; js ":null}"])
  = Some (JObject [(js "type", JNull)]).
Proof. reflexivity. Qed.

Example parse_rejects :
  List.map JSON.parse
    [js "not json"; js ""; js "[1,]"; js "{"; js "01"; js "1 2"; js "nul"; js "-"; dq ++ js "abc"]
  = [None; None; None; None; None; None; None; None; None].
Proof. reflexivity. Qed.

(** ** JSON.parse never gives [undefined] *)

Lemma parse_step_defined (st st' : JSON.state) (t : JSON.token) :
  JSON.parse_step st t = Some st' ->
  match st' with JSON.Done v => v <> JUndefined | _ => True end.
Proof.
  assert (Hr : forall v stack, v <> JUndefined ->
            match JSON.reduce v stack with JSON.Done v' => v' <> JUndefined | _ => True end).
  { intros v [| [elements | members key] stack] Hv; simpl; auto. }
  assert (Hv : forall stack st1, JSON.value_token t stack = Some st1 ->
            match st1 with JSON.Done v => v <> JUndefined | _ => True end).
  { intros stack st1 H. destruct t; simpl in H; try discriminate;
      injection H as <-; try exact I; apply Hr; discriminate. }
  destruct st, t; simpl; intro H; try discriminate; eauto;
    injection H as <-; try exact I; apply Hr; discriminate.
Qed.

Lemma parse_tokens_defined (ts : list JSON.token) (st : JSON.state) (v : JSValue) :
  match st with JSON.Done v' => v' <> JUndefined | _ => True end ->
  JSON.parse_tokens st ts = Some v -> v <> JUndefined.
Proof.
  revert st. induction ts as [| t ts IH]; intros st Hst H; simpl in H.
  - destruct st; try discriminate. injection H as <-. exact Hst.
  - destruct (JSON.parse_step st t) as [st' |] eqn:Hs; [| discriminate].
    apply (IH st'); auto. eapply parse_step_defined; eauto.
Qed.

Lemma JSON_parse_defined (text : jsstring) (v : JSValue) :
  JSON.parse text = Some v -> v <> JUndefined.
Proof.
  unfold JSON.parse. destruct (JSON.lex JSON.Idle text) as [ts |]; [| discriminate].
  apply parse_tokens_defined. exact I.
Qed.

(** ** processRecord, case by case *)

(** The cases of [processRecord_by_cases], in its order. *)
Ltac payload_cases v :=
  destruct (is_nullish v) eqn:?Hnullish;
  [| destruct (type_is v (js "business-error")) eqn:?Hbusiness;
     [| destruct (type_is v (js "temporary-error")) eqn:?Htemporary;
        [| destruct (type_is v (js "timeout")) eqn:?Htimeout]]].

Lemma processRecord_eq (record : SQSRecord.t) :
  processRecord record = processRecord_by_cases record.
Proof.
  unfold processRecord, processRecord_by_cases, JSON_parse.
  destruct (JSON.parse (SQSRecord.body record)) as [v |]; [| reflexivity].
  cbn [bind].
  destruct v as [| | b | n | s | elements | members]; try reflexivity.
  unfold type_is. cbn [is_nullish get_type bind].
  destruct (strict_eq (lookup (js "type") members) (js "business-error")); [reflexivity |].
  destruct (strict_eq (lookup (js "type") members) (js "temporary-error")); [reflexivity |].
  destruct (strict_eq (lookup (js "type") members) (js "timeout")); reflexivity.
Qed.

Lemma strict_eq_true (v : JSValue) (literal : jsstring) :
  strict_eq v literal = true <-> v = JString literal.
Proof.
  destruct v; simpl; split; try discriminate.
  - intro H. apply jsstring_eqb_eq in H. now subst.
  - intro H. injection H as ->. apply jsstring_eqb_refl.
Qed.

(** At most one of the tests [body.type === literal] holds. *)
Lemma type_is_functional (v : JSValue) (a b : jsstring) :
  type_is v a = true -> type_is v b = true -> a = b.
Proof.
  unfold type_is. destruct (get_type v) as [t | | |]; try discriminate.
  intros Ha Hb. apply strict_eq_true in Ha, Hb. congruence.
Qed.

Lemma type_is_nullish (v : JSValue) (literal : jsstring) :
  is_nullish v = true -> type_is v literal = false.
Proof. destruct v; simpl; try discriminate; reflexivity. Qed.

Lemma processRecord_unparsable (record : SQSRecord.t) :
  parses record = false -> processRecord record = Throw SyntaxError.
Proof.
  unfold parses. rewrite processRecord_eq. unfold processRecord_by_cases.
  destruct (JSON.parse (SQSRecord.body record)); [discriminate | reflexivity].
Qed.

(** A record whose body parses has a result; the result carries the record's
    identifier, and an error exactly when it is unsuccessful. *)
Lemma processRecord_result (record : SQSRecord.t) :
  parses record = true ->
  exists result,
    settle (processRecord record) = Fulfilled result
    /\ ProcessingResult.messageId result = SQSRecord.messageId record
    /\ (ProcessingResult.error result <> None <-> ProcessingResult.success result = false).
Proof.
  unfold parses. rewrite processRecord_eq. unfold processRecord_by_cases.
  destruct (JSON.parse (SQSRecord.body record)) as [v |]; [intros _ | discriminate].
  payload_cases v; simpl; eexists; (split; [reflexivity |]); simpl; (split; [reflexivity |]);
    split; congruence.
Qed.

(** Called at time [t], it is settled when the call returns, or waits for the
    one timer of the [timeout] branch. *)
Lemma processRecord_single_wait (t : N) (record : SQSRecord.t) :
  parses record = true -> single_wait (t + 5000) (suspend t (processRecord record)).
Proof.
  unfold parses. rewrite processRecord_eq. unfold processRecord_by_cases.
  destruct (JSON.parse (SQSRecord.body record)) as [v |]; [intros _ | discriminate].
  payload_cases v; simpl; auto.
  repeat split; eauto.
Qed.

Lemma literals_distinct :
  js "business-error" <> js "timeout" /\ js "temporary-error" <> js "timeout"
  /\ js "business-error" <> js "temporary-error".
Proof. repeat split; discriminate. Qed.

Lemma processRecord_timers (t : N) (record : SQSRecord.t) :
  parses record = true ->
  timers [suspend t (processRecord record)]
  = if record_type_is record (js "timeout") then 1%nat else 0%nat.
Proof.
  unfold parses, record_type_is. rewrite processRecord_eq. unfold processRecord_by_cases.
  destruct (JSON.parse (SQSRecord.body record)) as [v |]; [intros _ | discriminate].
  destruct literals_distinct as (H1 & H2 & _).
  destruct (is_nullish v) eqn:Hn.
  - now rewrite (type_is_nullish v _ Hn).
  - destruct (type_is v (js "business-error")) eqn:Hb.
    + destruct (type_is v (js "timeout")) eqn:Ht; [| reflexivity].
      elim H1. eapply type_is_functional; eauto.
    + destruct (type_is v (js "temporary-error")) eqn:Hte.
      * destruct (type_is v (js "timeout")) eqn:Ht; [| reflexivity].
        elim H2. eapply type_is_functional; eauto.
      * destruct (type_is v (js "timeout")); reflexivity.
Qed.

(** ** The handler on a whole batch *)

Lemma flat_map_of_map {X Y Z : Type} (f : Y -> list Z) (g : X -> Y) (xs : list X) :
  flat_map f (List.map g xs) = flat_map (fun x => f (g x)) xs.
Proof. induction xs as [| x xs IH]; simpl; congruence. Qed.

Lemma batch_single_wait (t : N) (records : list SQSRecord.t) :
  forallb parses records = true ->
  Forall (single_wait (t + 5000))
    (List.map (fun record => suspend t (processRecord record)) records).
Proof.
  induction records as [| r rs IH]; simpl; intro H; constructor;
    apply andb_prop in H; destruct H as [Hr Hrs]; auto.
  now apply processRecord_single_wait.
Qed.

Lemma batch_timers (t : N) (records : list SQSRecord.t) :
  forallb parses records = true ->
  Nat.eqb (timers (List.map (fun record => suspend t (processRecord record)) records)) 0
  = negb (has_timeout records).
Proof.
  unfold has_timeout.
  induction records as [| r rs IH]; intro H; [reflexivity |].
  cbn [List.map existsb forallb] in *.
  apply andb_prop in H; destruct H as [Hr Hrs].
  rewrite timers_cons, (processRecord_timers t r Hr).
  destruct (record_type_is r (js "timeout")); simpl; auto.
Qed.

Lemma batch_first_rejected (t : N) (records : list SQSRecord.t) :
  forallb parses records = false ->
  first_rejected (List.map (fun record => suspend t (processRecord record)) records)
  = Some SyntaxError.
Proof.
  induction records as [| r rs IH]; simpl; intro H; [discriminate |].
  destruct (parses r) eqn:Hr; simpl in H.
  - pose proof (processRecord_single_wait t r Hr) as Hs.
    destruct (suspend t (processRecord r)); simpl in Hs; auto. destruct Hs.
  - now rewrite (processRecord_unparsable r Hr).
Qed.

Lemma failures_results_of (records : list SQSRecord.t) :
  forallb parses records = true ->
  failures (results_of records)
  = List.map (fun record => SQSBatchItemFailure.mk (SQSRecord.messageId record))
      (List.filter fails records).
Proof.
  unfold results_of, failures.
  induction records as [| r rs IH]; simpl; intro H; [reflexivity |].
  apply andb_prop in H; destruct H as [Hr Hrs].
  destruct (processRecord_result r Hr) as (result & Hres & Hid & _).
  unfold fails at 1. rewrite Hres. simpl.
  destruct (negb (ProcessingResult.success result)); simpl; rewrite (IH Hrs); congruence.
Qed.

(** Every body parses: the handler returns, at time 5000 if a [timeout]
    message is in the batch and at once otherwise. *)
Lemma invoke_all_parse (event : SQSEvent.t) (context : Context.t) :
  forallb parses (SQSEvent.Records event) = true ->
  invoke event context
  = (mkLoop (if has_timeout (SQSEvent.Records event) then 5000 else 0)
            (console_of (SQSEvent.Records event)),
     Returned (SQSBatchResponse.mk (failures (results_of (SQSEvent.Records event))))).
Proof.
  intro H. unfold invoke. rewrite handler_eq. cbv zeta. cbn [now].
  unfold Promise_all.
  rewrite (single_wait_await_all 5000);
    [| exact (batch_single_wait 0 _ H) | lia | simpl; lia].
  rewrite (batch_timers 0 _ H).
  rewrite !map_map.
  rewrite (map_ext _ _ (fun record => settleP_suspend 0 (processRecord record))).
  fold (results_of (SQSEvent.Records event)).
  rewrite flat_map_of_map.
  unfold emit_all, console_of. simpl.
  destruct (has_timeout (SQSEvent.Records event)); simpl;
    now rewrite <- !app_assoc.
Qed.

(** Some body does not parse: the handler throws the [SyntaxError] as soon as
    it awaits, and returns no response. *)
Lemma invoke_some_unparsable (event : SQSEvent.t) (context : Context.t) :
  forallb parses (SQSEvent.Records event) = false ->
  snd (invoke event context) = Thrown SyntaxError /\ now (fst (invoke event context)) = 0.
Proof.
  intro H. unfold invoke. rewrite handler_eq. cbv zeta. cbn [now].
  rewrite (Promise_all_rejected _ _ SyntaxError); [| exact (batch_first_rejected 0 _ H)].
  split; reflexivity.
Qed.

(** The console and the clock when the handler throws. *)
Lemma invoke_some_unparsable_loop (event : SQSEvent.t) (context : Context.t) :
  forallb parses (SQSEvent.Records event) = false ->
  fst (invoke event context)
  = mkLoop 0
      ((0, console_log [LString (js "Processing batch of:");
                        LNumber (List.length (SQSEvent.Records event))])
         :: List.map (pair 0)
              (flat_map (fun record => prefix_logs (processRecord record))
                 (SQSEvent.Records event))).
Proof.
  intro H. unfold invoke. rewrite handler_eq. cbv zeta. cbn [now].
  rewrite (Promise_all_rejected _ _ SyntaxError); [| exact (batch_first_rejected 0 _ H)].
  reflexivity.
Qed.

(** The handler returns exactly when every body parses. *)
Lemma invoke_returned_parses (event : SQSEvent.t) (context : Context.t)
      (response : SQSBatchResponse.t) :
  snd (invoke event context) = Returned response ->
  forallb parses (SQSEvent.Records event) = true.
Proof.
  intro H. destruct (forallb parses (SQSEvent.Records event)) eqn:Hp; [reflexivity |].
  destruct (invoke_some_unparsable event context Hp) as [Ht _]. congruence.
Qed.

(** The identifiers the handler lists: those of the records that fail, in
    the order of the batch. *)
Lemma invoke_failed_ids (event : SQSEvent.t) (context : Context.t)
      (response : SQSBatchResponse.t) :
  snd (invoke event context) = Returned response ->
  failed_ids response
  = List.map SQSRecord.messageId (List.filter fails (SQSEvent.Records event)).
Proof.
  intro H. pose proof (invoke_returned_parses _ _ _ H) as Hp.
  rewrite (invoke_all_parse _ context Hp) in H. simpl in H. injection H as <-.
  unfold failed_ids. simpl. rewrite (failures_results_of _ Hp), map_map. reflexivity.
Qed.

Lemma fails_result (record : SQSRecord.t) (result : ProcessingResult.t) :
  settle (processRecord record) = Fulfilled result ->
  fails record = negb (ProcessingResult.success result).
Proof. unfold fails. now intros ->. Qed.

(** Whether a record fails, read off its payload. *)
Lemma fails_payload (record : SQSRecord.t) (v : JSValue) :
  JSON.parse (SQSRecord.body record) = Some v ->
  fails record
  = is_nullish v || type_is v (js "business-error") || type_is v (js "temporary-error")
    || type_is v (js "timeout").
Proof.
  intro H. unfold fails. rewrite processRecord_eq. unfold processRecord_by_cases. rewrite H.
  payload_cases v; reflexivity.
Qed.

Lemma results_of_In (records : list SQSRecord.t) (record : SQSRecord.t)
      (result : ProcessingResult.t) :
  In record records -> settle (processRecord record) = Fulfilled result ->
  In result (results_of records).
Proof.
  unfold results_of. induction records as [| r rs IH]; simpl; intros Hin Hres; [destruct Hin |].
  destruct Hin as [-> | Hin].
  - rewrite Hres. now left.
  - destruct (settle (processRecord r)); auto. now right; auto.
Qed.

(** Counting an identifier among those of the selected records of a batch
    with distinct identifiers. *)
Lemma count_occ_selected {X : Type} (id : X -> jsstring) (select : X -> bool)
      (xs : list X) (x : X) :
  NoDup (List.map id xs) -> In x xs ->
  count_occ (list_eq_dec N.eq_dec) (List.map id (List.filter select xs)) (id x)
  = if select x then 1%nat else 0%nat.
Proof.
  induction xs as [| y ys IH]; simpl; intros Hnd Hin; [destruct Hin |].
  inversion Hnd as [| ? ? Hnotin Hnd']; subst.
  assert (Hnone : forall zs, ~ In (id x) (List.map id zs) ->
            count_occ (list_eq_dec N.eq_dec) (List.map id (List.filter select zs)) (id x) = O).
  { intros zs Hz. apply count_occ_not_In. intro Hc. apply Hz.
    apply in_map_iff in Hc. destruct Hc as (z & Hz1 & Hz2).
    apply filter_In in Hz2. apply in_map_iff. exists z. tauto. }
  destruct Hin as [-> | Hin].
  - destruct (select x); simpl.
    + destruct (list_eq_dec N.eq_dec (id x) (id x)); [| congruence].
      now rewrite (Hnone ys Hnotin).
    + exact (Hnone ys Hnotin).
  - assert (Hne : id y <> id x).
    { intro Heq. apply Hnotin. rewrite Heq. now apply in_map. }
    destruct (select y); simpl.
    + destruct (list_eq_dec N.eq_dec (id y) (id x)); [contradiction |]. auto.
    + auto.
Qed.

(** [processRecord] reads the identifier and the body of the record only. *)
Lemma processRecord_ext (r1 r2 : SQSRecord.t) :
  SQSRecord.messageId r1 = SQSRecord.messageId r2 ->
  SQSRecord.body r1 = SQSRecord.body r2 ->
  processRecord r1 = processRecord r2.
Proof. unfold processRecord. now intros -> ->. Qed.

(** What a record's processing writes before its first [await] is on the
    console at time 0, whatever else the batch holds. *)
Lemma invoke_sync_console (event : SQSEvent.t) (context : Context.t)
      (record : SQSRecord.t) (entry : LogEntry) :
  In record (SQSEvent.Records event) ->
  In entry (prefix_logs (processRecord record)) ->
  In (0, entry) (console (fst (invoke event context))).
Proof.
  intros Hin Hentry.
  assert (Hsync : In (0, entry)
            (List.map (pair 0)
               (flat_map (fun r => prefix_logs (processRecord r)) (SQSEvent.Records event)))).
  { apply in_map. apply in_flat_map. exists record. auto. }
  destruct (forallb parses (SQSEvent.Records event)) eqn:Hp.
  - rewrite (invoke_all_parse event context Hp). unfold console_of. simpl.
    right. apply in_or_app. now left.
  - rewrite (invoke_some_unparsable_loop event context Hp). simpl. now right.
Qed.

(** The handler's line for each result is on the console when it returns. *)
Lemma invoke_report_console (event : SQSEvent.t) (context : Context.t)
      (response : SQSBatchResponse.t) (record : SQSRecord.t) (result : ProcessingResult.t) :
  snd (invoke event context) = Returned response ->
  In record (SQSEvent.Records event) ->
  settle (processRecord record) = Fulfilled result ->
  In (now (fst (invoke event context)), report result) (console (fst (invoke event context))).
Proof.
  intros Hret Hin Hres. pose proof (invoke_returned_parses _ _ _ Hret) as Hp.
  rewrite (invoke_all_parse event context Hp). unfold console_of. simpl.
  right. apply in_or_app. right. apply in_or_app. right.
  apply in_map. apply in_map. eapply results_of_In; eauto.
Qed.

(** A failing record's identifier is in the response. *)
Lemma invoke_failing_listed (event : SQSEvent.t) (context : Context.t)
      (response : SQSBatchResponse.t) (record : SQSRecord.t) :
  snd (invoke event context) = Returned response ->
  In record (SQSEvent.Records event) -> fails record = true ->
  In (SQSBatchItemFailure.mk (SQSRecord.messageId record))
     (SQSBatchResponse.batchItemFailures response).
Proof.
  intros Hret Hin Hf. pose proof (invoke_returned_parses _ _ _ Hret) as Hp.
  rewrite (invoke_all_parse event context Hp) in Hret. simpl in Hret.
  injection Hret as <-. simpl. rewrite (failures_results_of _ Hp).
  apply (in_map (fun r => SQSBatchItemFailure.mk (SQSRecord.messageId r))).
  apply filter_In. auto.
Qed.

(** * The claims of the specification *)

(** ** Error handling *)

(** C1: the specification has [processRecord] resolve for every record, one
    with an unparsable body included, and the handler never throw.  The code
    calls [JSON.parse] before it enters its [try] block: on the record with
    body [not json] the promise of [processRecord] is rejected with the
    [SyntaxError], and the handler, awaiting a batch that holds this record
    after a good one, throws it and returns no response. *)
Theorem unparsable_body_escapes_the_try_block :
  JSON.parse (SQSRecord.body unparsable_record) = None
  /\ processRecord unparsable_record = Throw SyntaxError
  /\ settle (processRecord unparsable_record) = Rejected SyntaxError
  /\ snd (invoke (SQSEvent.mk [ok_record; unparsable_record]) sample_context)
     = Thrown SyntaxError.
Proof.
  assert (Hp : parses unparsable_record = false) by (vm_compute; reflexivity).
  split; [| split; [| split]].
  - vm_compute; reflexivity.
  - exact (processRecord_unparsable _ Hp).
  - now rewrite (processRecord_unparsable _ Hp).
  - apply invoke_some_unparsable. vm_compute; reflexivity.
Qed.

(** C5: for the empty batch the handler returns a response whose
    [batchItemFailures] is empty; it does not throw, and only the batch size
    is written to the console. *)
Theorem empty_batch (context : Context.t) :
  invoke (SQSEvent.mk []) context
  = (mkLoop 0 [(0, console_log [LString (js "Processing batch of:"); LNumber 0])],
     Returned (SQSBatchResponse.mk [])).
Proof. reflexivity. Qed.

(** ** processRecord *)

(** C9: every result [processRecord] returns has its [error] field present
    exactly when [success] is false, and carries the [messageId] of the
    record it was called on. *)
Theorem ProcessingResult_invariant (record : SQSRecord.t) (result : ProcessingResult.t) :
  settle (processRecord record) = Fulfilled result ->
  (ProcessingResult.error result <> None <-> ProcessingResult.success result = false)
  /\ ProcessingResult.messageId result = SQSRecord.messageId record.
Proof.
  intro H.
  assert (Hp : parses record = true).
  { destruct (parses record) eqn:Hp; [reflexivity |].
    rewrite (processRecord_unparsable _ Hp) in H. discriminate. }
  destruct (processRecord_result record Hp) as (result' & Hres & Hid & Herr).
  assert (result' = result) by congruence. subst result'. tauto.
Qed.

Lemma ProcessingResult_invariant_witness :
  let result :=
    ProcessingResult.mk false (js "m-3")
      (Some (TemporaryError (js "Temporary processing error"))) in
  (ProcessingResult.error result <> None <-> ProcessingResult.success result = false)
  /\ ProcessingResult.messageId result = SQSRecord.messageId temporary_record.
Proof.
  apply (ProcessingResult_invariant temporary_record). vm_compute. reflexivity.
Defined.

(** C3, as stated, fails: the body [null] parses as JSON and its payload has
    none of the three types, yet [processRecord] returns a failure, carrying
    the [TypeError] that reading [body.type] throws inside the [try] block. *)
Lemma null_payload_is_a_failure :
  JSON.parse (SQSRecord.body null_record) = Some JNull
  /\ type_is JNull (js "business-error") = false
  /\ type_is JNull (js "temporary-error") = false
  /\ type_is JNull (js "timeout") = false
  /\ settle (processRecord null_record)
     = Fulfilled (ProcessingResult.mk false (js "m-5") (Some TypeError)).
Proof. repeat split; vm_compute; reflexivity. Qed.

(** C3, amended: for every record whose body parses as JSON, [processRecord]
    returns a failure carrying a [BusinessLogicError] when the payload's type
    is ['business-error'], one carrying a [TemporaryError] when it is
    ['temporary-error'], one carrying a generic [Error] after a delay of 5000
    milliseconds when it is ['timeout'], one carrying a [TypeError] when the
    payload is [null], and a success for every other payload; only the
    [timeout] branch waits. *)
Theorem processRecord_by_type (record : SQSRecord.t) (v : JSValue) :
  JSON.parse (SQSRecord.body record) = Some v ->
  let id := SQSRecord.messageId record in
  let returns result := settle (processRecord record) = Fulfilled result in
  (type_is v (js "business-error") = true ->
   returns (ProcessingResult.mk false id
              (Some (BusinessLogicError (js "Invalid business logic"))))
   /\ delay (processRecord record) = 0)
  /\ (type_is v (js "temporary-error") = true ->
      returns (ProcessingResult.mk false id
                 (Some (TemporaryError (js "Temporary processing error"))))
      /\ delay (processRecord record) = 0)
  /\ (type_is v (js "timeout") = true ->
      returns (ProcessingResult.mk false id (Some (Error (js "Operation timed out"))))
      /\ delay (processRecord record) = 5000)
  /\ (v = JNull ->
      returns (ProcessingResult.mk false id (Some TypeError))
      /\ delay (processRecord record) = 0)
  /\ (v <> JNull ->
      type_is v (js "business-error") = false ->
      type_is v (js "temporary-error") = false ->
      type_is v (js "timeout") = false ->
      returns (ProcessingResult.mk true id None)
      /\ delay (processRecord record) = 0).
Proof.
  intros Hparse id returns. subst returns.
  pose proof (JSON_parse_defined _ _ Hparse) as Hdef.
  destruct literals_distinct as (H1 & H2 & H3).
  rewrite processRecord_eq. unfold processRecord_by_cases. rewrite Hparse.
  assert (Hexcl : forall a b, a <> b -> type_is v a = true -> type_is v b = true -> False).
  { intros a b Hab Ha Hb. apply Hab. exact (type_is_functional v a b Ha Hb). }
  destruct (is_nullish v) eqn:Hn.
  - rewrite !(type_is_nullish v _ Hn).
    split; [discriminate |]. split; [discriminate |]. split; [discriminate |].
    split; [intros _; split; reflexivity |].
    intro Hv. destruct v; try discriminate; congruence.
  - assert (Hnn : v <> JNull) by (intro; subst v; discriminate).
    destruct (type_is v (js "business-error")) eqn:Hb;
      [| destruct (type_is v (js "temporary-error")) eqn:Hte;
         [| destruct (type_is v (js "timeout")) eqn:Hti]].
    + split; [intros _; split; reflexivity |].
      split; [intro Hc; destruct (Hexcl _ _ H3 Hb Hc) |].
      split; [intro Hc; destruct (Hexcl _ _ H1 Hb Hc) |].
      split; [intro Hc; contradiction | intros; discriminate].
    + split; [discriminate |].
      split; [intros _; split; reflexivity |].
      split; [intro Hc; destruct (Hexcl _ _ H2 Hte Hc) |].
      split; [intro Hc; contradiction | intros; discriminate].
    + split; [discriminate |]. split; [discriminate |].
      split; [intros _; split; reflexivity |].
      split; [intro Hc; contradiction | intros; discriminate].
    + split; [discriminate |]. split; [discriminate |]. split; [discriminate |].
      split; [intro Hc; contradiction | intros; split; reflexivity].
Qed.

Lemma processRecord_by_type_witness :
  settle (processRecord timeout_record)
  = Fulfilled (ProcessingResult.mk false (js "m-4") (Some (Error (js "Operation timed out"))))
  /\ delay (processRecord timeout_record) = 5000.
Proof.
  assert (Hparse : JSON.parse (SQSRecord.body timeout_record)
                   = Some (JObject [(js "type", JString (js "timeout"))]))
    by (vm_compute; reflexivity).
  destruct (processRecord_by_type timeout_record _ Hparse) as (_ & _ & Ht & _).
  apply Ht. vm_compute. reflexivity.
Defined.

(** ** The batch response *)

(** C2: for a batch with distinct identifiers, the identifiers the handler
    returns in [batchItemFailures] are among those of the batch, and the
    identifier of each message of the batch is listed once if its processing
    failed and not at all if it succeeded; every message has a result.  The
    handler returns unless a body does not parse, and then it throws and
    returns no list. *)
Theorem batchItemFailures_exact (event : SQSEvent.t) (context : Context.t) :
  let records := SQSEvent.Records event in
  NoDup (List.map SQSRecord.messageId records) ->
  match snd (invoke event context) with
  | Returned response =>
      incl (failed_ids response) (List.map SQSRecord.messageId records)
      /\ List.length (failed_ids response) = List.length (List.filter fails records)
      /\ forall record, In record records ->
           exists result,
             settle (processRecord record) = Fulfilled result
             /\ count_occ (list_eq_dec N.eq_dec) (failed_ids response)
                  (SQSRecord.messageId record)
                = if ProcessingResult.success result then 0%nat else 1%nat
  | Thrown e => e = SyntaxError /\ forallb parses records = false
  | Hung => False
  end.
Proof.
  intros records Hnd. subst records.
  destruct (forallb parses (SQSEvent.Records event)) eqn:Hp.
  - pose proof (invoke_all_parse event context Hp) as Hinv.
    destruct (invoke event context) as [l [response | e |]] eqn:Hi;
      simpl in Hinv; try discriminate. cbn [snd]. cbv iota.
    assert (Hids : failed_ids response
                   = List.map SQSRecord.messageId (List.filter fails (SQSEvent.Records event))).
    { apply (invoke_failed_ids event context). now rewrite Hi. }
    rewrite Hids. split; [| split].
    + intros id Hin. apply in_map_iff in Hin. destruct Hin as (r & <- & Hr).
      apply filter_In in Hr. apply in_map. tauto.
    + now rewrite length_map.
    + intros record Hin.
      assert (Hpr : parses record = true).
      { rewrite forallb_forall in Hp. auto. }
      destruct (processRecord_result record Hpr) as (result & Hres & _).
      exists result. split; [exact Hres |].
      rewrite (count_occ_selected SQSRecord.messageId fails _ record Hnd Hin).
      rewrite (fails_result _ _ Hres). now destruct (ProcessingResult.success result).
  - destruct (invoke_some_unparsable event context Hp) as [-> _]. auto.
Qed.

Lemma batchItemFailures_exact_witness :
  NoDup (List.map SQSRecord.messageId (SQSEvent.Records sample_event))
  /\ exists response,
       snd (invoke sample_event sample_context) = Returned response
       /\ incl (failed_ids response)
            (List.map SQSRecord.messageId (SQSEvent.Records sample_event))
       /\ List.length (failed_ids response) = 2%nat.
Proof.
  assert (Hnd : NoDup (List.map SQSRecord.messageId (SQSEvent.Records sample_event))).
  { repeat constructor; simpl; intuition discriminate. }
  split; [exact Hnd |].
  generalize (batchItemFailures_exact sample_event sample_context Hnd). cbv zeta.
  destruct (snd (invoke sample_event sample_context)) as [response | e |].
  - intros (Hincl & Hlen & _). exists response. repeat split; assumption.
  - intros [_ Hp]. vm_compute in Hp. discriminate.
  - intros [].
Defined.

(** C10: the entries of [batchItemFailures] keep the order of the batch: the
    identifiers listed are those of the failing records in the order of
    [event.Records], so that of two failing messages the one delivered first
    is listed first. *)
Theorem batchItemFailures_order (event : SQSEvent.t) (context : Context.t)
        (response : SQSBatchResponse.t) :
  snd (invoke event context) = Returned response ->
  failed_ids response
  = List.map SQSRecord.messageId (List.filter fails (SQSEvent.Records event))
  /\ forall before ri between rj after,
       SQSEvent.Records event = before ++ ri :: between ++ rj :: after ->
       fails ri = true -> fails rj = true ->
       exists ids1 ids2 ids3,
         failed_ids response
         = ids1 ++ SQSRecord.messageId ri :: ids2 ++ SQSRecord.messageId rj :: ids3.
Proof.
  intro H. pose proof (invoke_failed_ids _ _ _ H) as Hids.
  split; [exact Hids |].
  intros before ri between rj after Hrec Hi Hj.
  rewrite Hids, Hrec.
  exists (List.map SQSRecord.messageId (List.filter fails before)),
         (List.map SQSRecord.messageId (List.filter fails between)),
         (List.map SQSRecord.messageId (List.filter fails after)).
  rewrite filter_app. simpl. rewrite Hi, filter_app. simpl. rewrite Hj.
  rewrite map_app. simpl. rewrite map_app. reflexivity.
Qed.

Lemma batchItemFailures_order_witness :
  failed_ids (SQSBatchResponse.mk
                [SQSBatchItemFailure.mk (js "m-4"); SQSBatchItemFailure.mk (js "m-2");
                 SQSBatchItemFailure.mk (js "m-5")])
  = List.map SQSRecord.messageId (List.filter fails (SQSEvent.Records mixed_event)).
Proof.
  apply (batchItemFailures_order mixed_event sample_context).
  vm_compute. reflexivity.
Defined.

(** C8: the handler reads the [messageId] and the [body] of each record and
    nothing else: two batches that agree on them record by record, whatever
    their receive counts and other delivery metadata and whatever the
    context, give the same invocation, and so equal [batchItemFailures]. *)
Theorem handler_reads_messageId_and_body_only
        (event1 event2 : SQSEvent.t) (context1 context2 : Context.t) :
  Forall2 (fun r1 r2 => SQSRecord.messageId r1 = SQSRecord.messageId r2
                        /\ SQSRecord.body r1 = SQSRecord.body r2)
          (SQSEvent.Records event1) (SQSEvent.Records event2) ->
  invoke event1 context1 = invoke event2 context2.
Proof.
  intro H.
  assert (Hmap : List.map processRecord (SQSEvent.Records event1)
                 = List.map processRecord (SQSEvent.Records event2)).
  { induction H as [| r1 r2 rs1 rs2 [Hid Hb] _ IH]; simpl; [reflexivity |].
    now rewrite (processRecord_ext r1 r2 Hid Hb), IH. }
  assert (Hlen : List.length (SQSEvent.Records event1)
                 = List.length (SQSEvent.Records event2)).
  { rewrite <- (length_map processRecord (SQSEvent.Records event1)), Hmap.
    apply length_map. }
  unfold invoke. rewrite !handler_eq. cbv zeta.
  rewrite <- !(flat_map_of_map prefix_logs processRecord).
  rewrite <- !(map_map processRecord (suspend (now (mkLoop 0 [])))).
  now rewrite Hmap, Hlen.
Qed.

Lemma handler_reads_messageId_and_body_only_witness :
  invoke (SQSEvent.mk [business_record]) sample_context
  = invoke (SQSEvent.mk [business_record_again]) (Context.mk (js "other") (js "req-2") 10).
Proof.
  apply handler_reads_messageId_and_body_only.
  repeat constructor.
Defined.

(** C4: for a batch of three messages whose bodies are [{"type":"ok"}],
    [{"type":"business-error"}] and [{"type":"temporary-error"}] in that
    order, the handler returns exactly two entries in [batchItemFailures],
    the identifiers of the second and the third message; the identifier of
    the first, being another one, is not among them. *)
Theorem three_message_batch (r1 r2 r3 : SQSRecord.t) (context : Context.t) :
  SQSRecord.body r1 = body_of_type "ok" ->
  SQSRecord.body r2 = body_of_type "business-error" ->
  SQSRecord.body r3 = body_of_type "temporary-error" ->
  let listed := [SQSBatchItemFailure.mk (SQSRecord.messageId r2);
                 SQSBatchItemFailure.mk (SQSRecord.messageId r3)] in
  snd (invoke (SQSEvent.mk [r1; r2; r3]) context) = Returned (SQSBatchResponse.mk listed)
  /\ (SQSRecord.messageId r1 <> SQSRecord.messageId r2 ->
      SQSRecord.messageId r1 <> SQSRecord.messageId r3 ->
      ~ In (SQSBatchItemFailure.mk (SQSRecord.messageId r1)) listed).
Proof.
  intros H1 H2 H3 listed. subst listed.
  assert (P1 : JSON.parse (SQSRecord.body r1) = Some (JObject [(js "type", JString (js "ok"))]))
    by (rewrite H1; vm_compute; reflexivity).
  assert (P2 : JSON.parse (SQSRecord.body r2)
               = Some (JObject [(js "type", JString (js "business-error"))]))
    by (rewrite H2; vm_compute; reflexivity).
  assert (P3 : JSON.parse (SQSRecord.body r3)
               = Some (JObject [(js "type", JString (js "temporary-error"))]))
    by (rewrite H3; vm_compute; reflexivity).
  assert (Hp : forallb parses (SQSEvent.Records (SQSEvent.mk [r1; r2; r3])) = true).
  { unfold parses. simpl. now rewrite P1, P2, P3. }
  split.
  - rewrite (invoke_all_parse _ context Hp). cbn [snd]. rewrite (failures_results_of _ Hp).
    cbn [SQSEvent.Records List.filter].
    rewrite (fails_payload r1 _ P1), (fails_payload r2 _ P2), (fails_payload r3 _ P3).
    reflexivity.
  - intros Hn2 Hn3 [Hin | [Hin | []]]; injection Hin as Hin; congruence.
Qed.

Lemma three_message_batch_witness :
  snd (invoke sample_event sample_context)
  = Returned (SQSBatchResponse.mk
                [SQSBatchItemFailure.mk (js "m-2"); SQSBatchItemFailure.mk (js "m-3")]).
Proof.
  apply (three_message_batch ok_record business_record temporary_record sample_context);
    reflexivity.
Defined.

(** ** Redelivery and the timeout *)

(** C6: a message whose payload has type ['business-error'] is processed the
    same way at every delivery: with the same identifier and body, whatever
    else the delivery carries, [processRecord] does the same steps and returns
    the same failure, carrying a [BusinessLogicError].  The handler treats it
    the same way in every batch that holds it: the [console.error] line of
    [processRecord] with the [BusinessLogicError] is written at time 0 and the
    handler is never left pending; whenever every body of the batch parses
    the handler returns, lists the identifier and writes the line of a
    business logic error for it; and it does so in every invocation that
    returns. *)
Theorem business_error_redelivery (first again : SQSRecord.t) (v : JSValue) :
  SQSRecord.messageId again = SQSRecord.messageId first ->
  SQSRecord.body again = SQSRecord.body first ->
  JSON.parse (SQSRecord.body first) = Some v ->
  type_is v (js "business-error") = true ->
  let id := SQSRecord.messageId first in
  let e := BusinessLogicError (js "Invalid business logic") in
  let result := ProcessingResult.mk false id (Some e) in
  let classified event context response :=
    In (SQSBatchItemFailure.mk id) (SQSBatchResponse.batchItemFailures response)
    /\ In (now (fst (invoke event context)),
           console_log [template [js "Business logic error for message "; id;
                                  js " - will be sent to DLQ after max retries"]])
          (console (fst (invoke event context))) in
  processRecord again = processRecord first
  /\ settle (processRecord again) = Fulfilled result
  /\ forall event context,
       In again (SQSEvent.Records event) ->
       In (0, console_error [template [js "Error processing record "; id; js ":"];
                             LError e])
          (console (fst (invoke event context)))
       /\ snd (invoke event context) <> Hung
       /\ (forallb parses (SQSEvent.Records event) = true ->
           exists response,
             snd (invoke event context) = Returned response
             /\ classified event context response)
       /\ (forall response,
             snd (invoke event context) = Returned response ->
             classified event context response).
Proof.
  intros Hid Hbody Hparse Htype id e result classified. subst classified.
  assert (Hsame : processRecord again = processRecord first)
    by exact (processRecord_ext again first Hid Hbody).
  assert (Hshape : processRecord again = failed_with again e).
  { rewrite Hsame, processRecord_eq. unfold processRecord_by_cases. rewrite Hparse.
    destruct (is_nullish v) eqn:Hn.
    - rewrite (type_is_nullish v _ Hn) in Htype. discriminate.
    - rewrite Htype. unfold failed_with. now rewrite Hid. }
  assert (Hres : settle (processRecord again) = Fulfilled result).
  { rewrite Hshape. unfold failed_with. simpl. subst result id. now rewrite Hid. }
  assert (Hlisted : forall event context response,
            In again (SQSEvent.Records event) ->
            snd (invoke event context) = Returned response ->
            In (SQSBatchItemFailure.mk id) (SQSBatchResponse.batchItemFailures response)
            /\ In (now (fst (invoke event context)),
                   console_log [template [js "Business logic error for message "; id;
                                          js " - will be sent to DLQ after max retries"]])
                  (console (fst (invoke event context)))).
  { intros event context response Hin Hret. split.
    - subst id. rewrite <- Hid.
      apply (invoke_failing_listed event context response again Hret Hin).
      now rewrite (fails_result _ _ Hres).
    - exact (invoke_report_console event context response again result Hret Hin Hres). }
  split; [exact Hsame |]. split; [exact Hres |].
  intros event context Hin. split; [| split; [| split]].
  - apply (invoke_sync_console event context again _ Hin).
    rewrite Hshape. unfold failed_with. rewrite Hid. now left.
  - destruct (forallb parses (SQSEvent.Records event)) eqn:Hp.
    + rewrite (invoke_all_parse event context Hp). discriminate.
    + destruct (invoke_some_unparsable event context Hp) as [-> _]. discriminate.
  - intro Hp.
    assert (Hret : snd (invoke event context)
                   = Returned (SQSBatchResponse.mk
                                 (failures (results_of (SQSEvent.Records event)))))
      by (now rewrite (invoke_all_parse event context Hp)).
    eexists. split; [exact Hret |]. exact (Hlisted event context _ Hin Hret).
  - intros response Hret. exact (Hlisted event context response Hin Hret).
Qed.

Lemma business_error_redelivery_witness :
  let event := SQSEvent.mk [ok_record; business_record_again] in
  processRecord business_record_again = processRecord business_record
  /\ settle (processRecord business_record_again)
     = Fulfilled (ProcessingResult.mk false (js "m-2")
                    (Some (BusinessLogicError (js "Invalid business logic"))))
  /\ In (0, console_error [template [js "Error processing record "; js "m-2"; js ":"];
                           LError (BusinessLogicError (js "Invalid business logic"))])
        (console (fst (invoke event sample_context)))
  /\ exists response,
       snd (invoke event sample_context) = Returned response
       /\ In (SQSBatchItemFailure.mk (js "m-2"))
             (SQSBatchResponse.batchItemFailures response)
       /\ In (now (fst (invoke event sample_context)),
              console_log [template [js "Business logic error for message "; js "m-2";
                                     js " - will be sent to DLQ after max retries"]])
             (console (fst (invoke event sample_context))).
Proof.
  intro event.
  assert (Hparse : JSON.parse (SQSRecord.body business_record)
                   = Some (JObject [(js "type", JString (js "business-error"))]))
    by (vm_compute; reflexivity).
  destruct (business_error_redelivery business_record business_record_again _
              eq_refl eq_refl Hparse eq_refl) as (H1 & H2 & Hbatch).
  assert (Hin : In business_record_again (SQSEvent.Records event))
    by (right; left; reflexivity).
  destruct (Hbatch event sample_context Hin) as (Hline & _ & Hreturns & _).
  split; [exact H1 |]. split; [exact H2 |]. split; [exact Hline |].
  apply Hreturns. vm_compute. reflexivity.
Defined.

(** C7: a message whose payload has type ['timeout'] waits 5000 milliseconds
    and then returns a failure carrying the generic [Error]; a batch that
    holds it never leaves the handler pending, and when every body parses the
    handler returns at time 5000 with the message listed.  Its siblings are
    not held up: every sibling that parses and is not itself a [timeout]
    message has completed, result returned and line written, at time 0, when
    its call returns. *)
Theorem timeout_message (event : SQSEvent.t) (context : Context.t) (record : SQSRecord.t) :
  In record (SQSEvent.Records event) ->
  record_type_is record (js "timeout") = true ->
  (processRecord record
   = Await_timeout 5000 (failed_with record (Error (js "Operation timed out")))
   /\ settle (processRecord record)
      = Fulfilled (ProcessingResult.mk false (SQSRecord.messageId record)
                     (Some (Error (js "Operation timed out"))))
   /\ delay (processRecord record) = 5000)
  /\ snd (invoke event context) <> Hung
  /\ (forallb parses (SQSEvent.Records event) = true ->
      exists response,
        snd (invoke event context) = Returned response
        /\ now (fst (invoke event context)) = 5000
        /\ In (SQSBatchItemFailure.mk (SQSRecord.messageId record))
              (SQSBatchResponse.batchItemFailures response))
  /\ (forall sibling,
        In sibling (SQSEvent.Records event) ->
        parses sibling = true ->
        record_type_is sibling (js "timeout") = false ->
        exists entry result,
          processRecord sibling = Console entry (Return result)
          /\ run (processRecord sibling) (mkLoop 0 [])
             = (mkLoop 0 [(0, entry)], Fulfilled result)
          /\ In (0, entry) (console (fst (invoke event context)))).
Proof.
  intros Hin Htype.
  destruct literals_distinct as (H1 & H2 & _).
  assert (Hshape : processRecord record
                   = Await_timeout 5000 (failed_with record (Error (js "Operation timed out")))).
  { revert Htype. unfold record_type_is. rewrite processRecord_eq.
    unfold processRecord_by_cases.
    destruct (JSON.parse (SQSRecord.body record)) as [v |]; [| discriminate].
    intro Htype. destruct (is_nullish v) eqn:Hn.
    - rewrite (type_is_nullish v _ Hn) in Htype. discriminate.
    - destruct (type_is v (js "business-error")) eqn:Hb.
      + elim H1. exact (type_is_functional v _ _ Hb Htype).
      + destruct (type_is v (js "temporary-error")) eqn:Hte.
        * elim H2. exact (type_is_functional v _ _ Hte Htype).
        * now rewrite Htype. }
  split; [| split; [| split]].
  - split; [exact Hshape |]. rewrite Hshape. split; reflexivity.
  - destruct (forallb parses (SQSEvent.Records event)) eqn:Hp.
    + rewrite (invoke_all_parse event context Hp). discriminate.
    + destruct (invoke_some_unparsable event context Hp) as [-> _]. discriminate.
  - intro Hp. rewrite (invoke_all_parse event context Hp). cbn [fst snd now].
    eexists. split; [reflexivity |]. split.
    + assert (Ht : has_timeout (SQSEvent.Records event) = true).
      { apply existsb_exists. exists record. auto. }
      now rewrite Ht.
    + cbn [SQSBatchResponse.batchItemFailures]. rewrite (failures_results_of _ Hp).
      apply (in_map (fun r => SQSBatchItemFailure.mk (SQSRecord.messageId r))).
      apply filter_In. split; [exact Hin |].
      unfold fails. rewrite Hshape. reflexivity.
  - intros sibling Hsin Hsp Hst.
    assert (Hs : exists entry result, processRecord sibling = Console entry (Return result)).
    { revert Hsp Hst. unfold parses, record_type_is. rewrite processRecord_eq.
      unfold processRecord_by_cases.
      destruct (JSON.parse (SQSRecord.body sibling)) as [v |]; [| discriminate].
      intros _ Hst. rewrite Hst.
      destruct (is_nullish v); [| destruct (type_is v (js "business-error"));
                                  [| destruct (type_is v (js "temporary-error"))]];
        eexists; eexists; reflexivity. }
    destruct Hs as (entry & result & Hs). exists entry, result.
    split; [exact Hs |]. split.
    + rewrite Hs. reflexivity.
    + apply (invoke_sync_console event context sibling entry Hsin).
      rewrite Hs. now left.
Qed.

Lemma timeout_message_witness :
  snd (invoke mixed_event sample_context) <> Hung
  /\ exists response,
       snd (invoke mixed_event sample_context) = Returned response
       /\ now (fst (invoke mixed_event sample_context)) = 5000
       /\ In (SQSBatchItemFailure.mk (js "m-4"))
             (SQSBatchResponse.batchItemFailures response).
Proof.
  assert (Hin : In timeout_record (SQSEvent.Records mixed_event)) by (left; reflexivity).
  assert (Htype : record_type_is timeout_record (js "timeout") = true)
    by (vm_compute; reflexivity).
  destruct (timeout_message mixed_event sample_context timeout_record Hin Htype)
    as (_ & Hnh & Hret & _).
  split; [exact Hnh |]. apply Hret. vm_compute. reflexivity.
Defined.


(** * Further properties of the batch processor *)

(** ** When the handler returns and when it throws *)

Lemma parses_false_iff (record : SQSRecord.t) :
  parses record = false <-> JSON.parse (SQSRecord.body record) = None.
Proof.
  unfold parses. destruct (JSON.parse (SQSRecord.body record)); split; congruence.
Qed.

Lemma forallb_parses_false (records : list SQSRecord.t) :
  forallb parses records = false
  <-> exists record, In record records /\ JSON.parse (SQSRecord.body record) = None.
Proof.
  split.
  - intro H. induction records as [| r rs IH]; simpl in H; [discriminate |].
    destruct (parses r) eqn:Hr; simpl in H.
    + destruct (IH H) as (record & Hin & Hp). exists record. split; [now right | exact Hp].
    + exists r. split; [now left | now apply parses_false_iff].
  - intros (record & Hin & Hp).
    destruct (forallb parses records) eqn:Hall; [| reflexivity].
    rewrite forallb_forall in Hall. specialize (Hall record Hin).
    apply parses_false_iff in Hp. congruence.
Qed.

(** X1: the handler returns a response exactly when the body of every
    record of the batch parses, and throws exactly when some body does not;
    what it throws is always the [SyntaxError] of [JSON.parse], and it is
    never left pending. *)
Theorem handler_returns_iff_every_body_parses (event : SQSEvent.t) (context : Context.t) :
  ((exists response, snd (invoke event context) = Returned response)
   <-> forall record, In record (SQSEvent.Records event) ->
         JSON.parse (SQSRecord.body record) <> None)
  /\ (snd (invoke event context) = Thrown SyntaxError
      <-> exists record, In record (SQSEvent.Records event)
            /\ JSON.parse (SQSRecord.body record) = None)
  /\ (forall e, snd (invoke event context) = Thrown e -> e = SyntaxError)
  /\ snd (invoke event context) <> Hung.
Proof.
  destruct (forallb parses (SQSEvent.Records event)) eqn:Hp.
  - pose proof (invoke_all_parse event context Hp) as Hinv.
    assert (Hall : forall record, In record (SQSEvent.Records event) ->
              JSON.parse (SQSRecord.body record) <> None).
    { intros record Hin Hnone. rewrite forallb_forall in Hp.
      specialize (Hp record Hin). apply parses_false_iff in Hnone. congruence. }
    rewrite Hinv. cbn [snd]. split; [| split; [| split]].
    + split; [intros _; exact Hall | intros _; eexists; reflexivity].
    + split; [discriminate |].
      intros (record & Hin & Hnone). destruct (Hall record Hin Hnone).
    + discriminate.
    + discriminate.
  - destruct (invoke_some_unparsable event context Hp) as [Ht _]. rewrite Ht.
    pose proof (proj1 (forallb_parses_false _) Hp) as (record & Hin & Hnone).
    split; [| split; [| split]].
    + split; [intros [response Hr]; discriminate |].
      intro Hall. destruct (Hall record Hin Hnone).
    + split; [intros _; exists record; auto | reflexivity].
    + intros e He. congruence.
    + discriminate.
Qed.

Lemma handler_returns_iff_every_body_parses_witness :
  exists response, snd (invoke sample_event sample_context) = Returned response.
Proof.
  destruct (handler_returns_iff_every_body_parses sample_event sample_context)
    as ([_ Hreturns] & _).
  apply Hreturns. intros record [<- | [<- | [<- | []]]]; vm_compute; discriminate.
Defined.

(** X2: the promise of [processRecord] is rejected only by [JSON.parse]:
    when the body does not parse the call throws the [SyntaxError] before
    it writes anything, and when it parses the call always ends with a
    result, whatever is thrown inside the [try] block. *)
Theorem processRecord_rejects_only_on_parse (record : SQSRecord.t) :
  (forall e, settle (processRecord record) = Rejected e ->
     e = SyntaxError /\ JSON.parse (SQSRecord.body record) = None)
  /\ (JSON.parse (SQSRecord.body record) = None ->
      processRecord record = Throw SyntaxError /\ logs (processRecord record) = [])
  /\ (JSON.parse (SQSRecord.body record) <> None ->
      exists result, settle (processRecord record) = Fulfilled result).
Proof.
  destruct (parses record) eqn:Hp.
  - destruct (processRecord_result record Hp) as (result & Hres & _).
    assert (Hsome : JSON.parse (SQSRecord.body record) <> None).
    { intro Hnone. apply parses_false_iff in Hnone. congruence. }
    split; [| split].
    + intros e He. congruence.
    + intro Hnone. contradiction.
    + intros _. exists result. exact Hres.
  - pose proof (processRecord_unparsable record Hp) as Hthrow.
    pose proof (proj1 (parses_false_iff record) Hp) as Hnone.
    split; [| split].
    + intros e He. rewrite Hthrow in He. simpl in He. injection He as <-. auto.
    + intros _. rewrite Hthrow. auto.
    + intro Hsome. contradiction.
Qed.

Lemma processRecord_rejects_only_on_parse_witness :
  processRecord unparsable_record = Throw SyntaxError
  /\ logs (processRecord unparsable_record) = [].
Proof.
  destruct (processRecord_rejects_only_on_parse unparsable_record) as (_ & Hthrows & _).
  apply Hthrows. vm_compute. reflexivity.
Defined.

(** ** How long an invocation takes *)

(** X3: an invocation ends at time 5000 when every body parses and the batch
    holds a [timeout] message, however many of them, and at time 0 otherwise:
    the waits of the messages overlap, they do not add up. *)
Theorem handler_duration (event : SQSEvent.t) (context : Context.t) :
  now (fst (invoke event context))
  = if forallb parses (SQSEvent.Records event) && has_timeout (SQSEvent.Records event)
    then 5000 else 0.
Proof.
  destruct (forallb parses (SQSEvent.Records event)) eqn:Hp.
  - rewrite (invoke_all_parse event context Hp). reflexivity.
  - now destruct (invoke_some_unparsable event context Hp) as [_ ->].
Qed.

(** ** What is written to the console *)

Lemma logs_no_timers {A : Type} (m : Async A) : timers_of m = O -> logs m = prefix_logs m.
Proof. induction m; simpl; intro H; auto; [now rewrite IHm | discriminate]. Qed.

(** The line of a record is written before its first [await] or when its one
    timer fires. *)
Lemma processRecord_logs_split (t : N) (record : SQSRecord.t) :
  logs (processRecord record)
  = prefix_logs (processRecord record) ++ late_logs (suspend t (processRecord record)).
Proof.
  rewrite processRecord_eq. unfold processRecord_by_cases.
  destruct (JSON.parse (SQSRecord.body record)) as [v |]; [| reflexivity].
  payload_cases v; reflexivity.
Qed.

Lemma processRecord_logs_length (record : SQSRecord.t) :
  parses record = true -> List.length (logs (processRecord record)) = 1%nat.
Proof.
  unfold parses. rewrite processRecord_eq. unfold processRecord_by_cases.
  destruct (JSON.parse (SQSRecord.body record)) as [v |]; [intros _ | discriminate].
  payload_cases v; reflexivity.
Qed.

Lemma flat_map_app_Permutation {X Y : Type} (f g : X -> list Y) (xs : list X) :
  Permutation (flat_map f xs ++ flat_map g xs) (flat_map (fun x => f x ++ g x) xs).
Proof.
  induction xs as [| x xs IH]; simpl; [constructor |].
  rewrite <- !app_assoc. apply Permutation_app_head.
  rewrite app_assoc. rewrite (Permutation_app_comm (flat_map f xs) (g x)).
  rewrite <- app_assoc. apply Permutation_app_head. exact IH.
Qed.

Lemma flat_map_length_1 {X Y : Type} (f : X -> list Y) (xs : list X) :
  (forall x, In x xs -> List.length (f x) = 1%nat) ->
  List.length (flat_map f xs) = List.length xs.
Proof.
  induction xs as [| x xs IH]; simpl; intro H; [reflexivity |].
  rewrite length_app, (H x (or_introl eq_refl)), IH; auto.
Qed.

Lemma results_of_length (records : list SQSRecord.t) :
  forallb parses records = true -> List.length (results_of records) = List.length records.
Proof.
  unfold results_of. induction records as [| r rs IH]; simpl; intro H; [reflexivity |].
  apply andb_prop in H. destruct H as [Hr Hrs].
  destruct (processRecord_result r Hr) as (result & -> & _). simpl. now rewrite IH.
Qed.

(** X4: when the handler returns, the console holds the line with the batch
    size, then one line per record written by [processRecord], then one line
    per record written by the handler: the handler's lines come in the order
    of the batch, all at the time it returns, and after the line of every
    record, the late ones included. *)
Theorem handler_console_barrier (event : SQSEvent.t) (context : Context.t)
        (response : SQSBatchResponse.t) :
  snd (invoke event context) = Returned response ->
  let records := SQSEvent.Records event in
  let T := now (fst (invoke event context)) in
  exists processing,
    console (fst (invoke event context))
    = (0, console_log [LString (js "Processing batch of:"); LNumber (List.length records)])
        :: processing ++ List.map (fun result => (T, report result)) (results_of records)
    /\ Permutation (List.map snd processing)
         (flat_map (fun record => logs (processRecord record)) records)
    /\ List.length processing = List.length records
    /\ Forall (fun entry => fst entry <= T) processing
    /\ List.length (results_of records) = List.length records.
Proof.
  intros Hret records T. subst records T.
  pose proof (invoke_returned_parses _ _ _ Hret) as Hp.
  rewrite (invoke_all_parse event context Hp). cbn [fst now console].
  set (records := SQSEvent.Records event).
  set (early := flat_map (fun record => prefix_logs (processRecord record)) records).
  set (late := flat_map (fun record => late_logs (suspend 0 (processRecord record))) records).
  assert (Hperm : Permutation (early ++ late)
                    (flat_map (fun record => logs (processRecord record)) records)).
  { subst early late. rewrite flat_map_app_Permutation.
    rewrite (flat_map_ext _ _ (fun record => eq_sym (processRecord_logs_split 0 record))).
    reflexivity. }
  assert (Hlen : List.length (early ++ late) = List.length records).
  { rewrite (Permutation_length Hperm). apply flat_map_length_1.
    intros r Hin. apply processRecord_logs_length.
    subst records. rewrite forallb_forall in Hp. auto. }
  exists (List.map (pair 0) early ++ List.map (pair 5000) late).
  split; [| split; [| split; [| split]]].
  - unfold console_of. fold records. fold early. fold late.
    rewrite <- app_assoc, map_map. reflexivity.
  - rewrite map_app, !map_map. simpl. rewrite !map_id. exact Hperm.
  - rewrite length_app, !length_map, <- length_app. exact Hlen.
  - apply Forall_app. split.
    + apply Forall_forall. intros entry Hin. apply in_map_iff in Hin.
      destruct Hin as (e & <- & _). simpl. lia.
    + destruct late as [| e late'] eqn:Hlate; [constructor |].
      assert (Ht : has_timeout records = true).
      { destruct (has_timeout records) eqn:Ht; [reflexivity |].
        pose proof (batch_timers 0 records Hp) as Hz. rewrite Ht in Hz. simpl in Hz.
        apply Nat.eqb_eq in Hz.
        destruct (single_wait_timers_0 _ _ (batch_single_wait 0 records Hp) Hz)
          as (_ & _ & Hnone).
        rewrite flat_map_of_map in Hnone. fold late in Hnone. congruence. }
      rewrite Ht. apply Forall_forall. intros entry Hin. apply in_map_iff in Hin.
      destruct Hin as (e' & <- & _). simpl. lia.
  - apply results_of_length. exact Hp.
Qed.

Lemma handler_console_barrier_witness :
  exists processing,
    console (fst (invoke mixed_event sample_context))
    = (0, console_log [LString (js "Processing batch of:"); LNumber 4])
        :: processing
        ++ List.map (fun result => (5000, report result))
             (results_of (SQSEvent.Records mixed_event))
    /\ List.length processing = 4%nat.
Proof.
  assert (Hret : snd (invoke mixed_event sample_context)
                 = Returned (SQSBatchResponse.mk
                               [SQSBatchItemFailure.mk (js "m-4");
                                SQSBatchItemFailure.mk (js "m-2");
                                SQSBatchItemFailure.mk (js "m-5")]))
    by (vm_compute; reflexivity).
  destruct (handler_console_barrier mixed_event sample_context _ Hret)
    as (processing & Hc & _ & Hlen & _).
  exists processing. split; [exact Hc | exact Hlen].
Defined.

(** The result of a record whose body parses, by cases on the payload. *)
Lemma settle_by_cases (record : SQSRecord.t) (v : JSValue) :
  JSON.parse (SQSRecord.body record) = Some v ->
  let id := SQSRecord.messageId record in
  settle (processRecord record)
  = Fulfilled
      (if is_nullish v then ProcessingResult.mk false id (Some TypeError)
       else if type_is v (js "business-error") then
         ProcessingResult.mk false id (Some (BusinessLogicError (js "Invalid business logic")))
       else if type_is v (js "temporary-error") then
         ProcessingResult.mk false id
           (Some (TemporaryError (js "Temporary processing error")))
       else if type_is v (js "timeout") then
         ProcessingResult.mk false id (Some (Error (js "Operation timed out")))
       else ProcessingResult.mk true id None).
Proof.
  intros H id. rewrite processRecord_eq. unfold processRecord_by_cases. rewrite H.
  payload_cases v; reflexivity.
Qed.

(** X5: the line the handler writes for a message follows its payload: the
    line of a business logic error, bound for the DLQ, for the type
    ['business-error']; the line of a temporary error for ['temporary-error'];
    the line of an unknown error, to be retried, for ['timeout'] and for the
    payload [null]; the line of a success for every other payload. *)
Theorem handler_line_by_payload (event : SQSEvent.t) (context : Context.t)
        (response : SQSBatchResponse.t) (record : SQSRecord.t) (v : JSValue) :
  snd (invoke event context) = Returned response ->
  In record (SQSEvent.Records event) ->
  JSON.parse (SQSRecord.body record) = Some v ->
  let id := SQSRecord.messageId record in
  let written parts :=
    In (now (fst (invoke event context)), console_log [template parts])
       (console (fst (invoke event context))) in
  (type_is v (js "business-error") = true ->
   written [js "Business logic error for message "; id;
            js " - will be sent to DLQ after max retries"])
  /\ (type_is v (js "temporary-error") = true ->
      written [js "Temporary error for message "; id; js " - will retry"])
  /\ (type_is v (js "timeout") = true \/ v = JNull ->
      written [js "Unknown error for message "; id; js " - will retry"])
  /\ (v <> JNull ->
      type_is v (js "business-error") = false ->
      type_is v (js "temporary-error") = false ->
      type_is v (js "timeout") = false ->
      written [js "Successfully processed message "; id]).
Proof.
  intros Hret Hin Hparse id written. subst written.
  pose proof (settle_by_cases record v Hparse) as Hres. cbv zeta in Hres. fold id in Hres.
  pose proof (JSON_parse_defined _ _ Hparse) as Hdef.
  destruct literals_distinct as (H1 & H2 & H3).
  assert (Hexcl : forall a b, a <> b -> type_is v a = true -> type_is v b = true -> False).
  { intros a b Hab Ha Hb. apply Hab. exact (type_is_functional v a b Ha Hb). }
  assert (Hline : forall result, settle (processRecord record) = Fulfilled result ->
            In (now (fst (invoke event context)), report result)
               (console (fst (invoke event context)))).
  { intros result Hr. exact (invoke_report_console event context response record result
                               Hret Hin Hr). }
  split; [| split; [| split]].
  - intro Hb. destruct (is_nullish v) eqn:Hn.
    + rewrite (type_is_nullish v _ Hn) in Hb. discriminate.
    + rewrite Hb in Hres. exact (Hline _ Hres).
  - intro Hte. destruct (is_nullish v) eqn:Hn.
    + rewrite (type_is_nullish v _ Hn) in Hte. discriminate.
    + destruct (type_is v (js "business-error")) eqn:Hb;
        [destruct (Hexcl _ _ H3 Hb Hte) |].
      rewrite Hte in Hres. exact (Hline _ Hres).
  - intros [Hti | Hnull].
    + destruct (is_nullish v) eqn:Hn.
      * rewrite (type_is_nullish v _ Hn) in Hti. discriminate.
      * destruct (type_is v (js "business-error")) eqn:Hb;
          [destruct (Hexcl _ _ H1 Hb Hti) |].
        destruct (type_is v (js "temporary-error")) eqn:Hte;
          [destruct (Hexcl _ _ H2 Hte Hti) |].
        rewrite Hti in Hres. exact (Hline _ Hres).
    + subst v. exact (Hline _ Hres).
  - intros Hnn Hb Hte Hti.
    assert (Hn : is_nullish v = false) by (destruct v; try reflexivity; congruence).
    rewrite Hn, Hb, Hte, Hti in Hres. exact (Hline _ Hres).
Qed.

Lemma handler_line_by_payload_witness :
  In (5000, console_log [template [js "Unknown error for message "; js "m-5";
                                   js " - will retry"]])
     (console (fst (invoke mixed_event sample_context))).
Proof.
  assert (Hret : snd (invoke mixed_event sample_context)
                 = Returned (SQSBatchResponse.mk
                               [SQSBatchItemFailure.mk (js "m-4");
                                SQSBatchItemFailure.mk (js "m-2");
                                SQSBatchItemFailure.mk (js "m-5")]))
    by (vm_compute; reflexivity).
  assert (Hin : In null_record (SQSEvent.Records mixed_event))
    by (right; right; right; left; reflexivity).
  assert (Hparse : JSON.parse (SQSRecord.body null_record) = Some JNull)
    by (vm_compute; reflexivity).
  destruct (handler_line_by_payload mixed_event sample_context _ null_record JNull
              Hret Hin Hparse) as (_ & _ & Hunknown & _).
  apply Hunknown. right. reflexivity.
Defined.

(** X6: a call of [processRecord] on a record whose body parses writes one
    line and no more: the [console.error] line with the record's identifier
    and the error when the result carries an error, the [console.log] line
    with the parsed payload when it does not. *)
Theorem processRecord_writes_one_line (record : SQSRecord.t) (v : JSValue) :
  JSON.parse (SQSRecord.body record) = Some v ->
  exists result,
    settle (processRecord record) = Fulfilled result
    /\ logs (processRecord record)
       = [match ProcessingResult.error result with
          | Some e =>
              console_error [template [js "Error processing record ";
                                       SQSRecord.messageId record; js ":"];
                             LError e]
          | None => console_log [LString (js "Successfully processed record:"); LValue v]
          end].
Proof.
  intro H. rewrite processRecord_eq. unfold processRecord_by_cases. rewrite H.
  payload_cases v; eexists; split; reflexivity.
Qed.

Lemma processRecord_writes_one_line_witness :
  exists result,
    settle (processRecord timeout_record) = Fulfilled result
    /\ List.length (logs (processRecord timeout_record)) = 1%nat.
Proof.
  assert (Hparse : JSON.parse (SQSRecord.body timeout_record)
                   = Some (JObject [(js "type", JString (js "timeout"))]))
    by (vm_compute; reflexivity).
  destruct (processRecord_writes_one_line timeout_record _ Hparse) as (result & Hres & Hlogs).
  exists result. split; [exact Hres |]. rewrite Hlogs. reflexivity.
Defined.

(** ** The response as a function of the batch *)

(** The entries of a response that is returned. *)
Lemma invoke_failures (event : SQSEvent.t) (context : Context.t)
      (response : SQSBatchResponse.t) :
  snd (invoke event context) = Returned response ->
  SQSBatchResponse.batchItemFailures response
  = List.map (fun record => SQSBatchItemFailure.mk (SQSRecord.messageId record))
      (List.filter fails (SQSEvent.Records event)).
Proof.
  intro H. pose proof (invoke_returned_parses _ _ _ H) as Hp.
  rewrite (invoke_all_parse _ context Hp) in H. simpl in H. injection H as <-.
  simpl. exact (failures_results_of _ Hp).
Qed.

Lemma invoke_returns (event : SQSEvent.t) (context : Context.t) :
  forallb parses (SQSEvent.Records event) = true ->
  snd (invoke event context)
  = Returned (SQSBatchResponse.mk
                (List.map (fun record => SQSBatchItemFailure.mk (SQSRecord.messageId record))
                   (List.filter fails (SQSEvent.Records event)))).
Proof.
  intro Hp. rewrite (invoke_all_parse _ context Hp). simpl.
  now rewrite (failures_results_of _ Hp).
Qed.

Lemma succeeds_iff_not_fails (record : SQSRecord.t) :
  parses record = true ->
  (fails record = false
   <-> exists result, settle (processRecord record) = Fulfilled result
         /\ ProcessingResult.success result = true).
Proof.
  intro Hp. destruct (processRecord_result record Hp) as (result & Hres & _).
  rewrite (fails_result _ _ Hres). split.
  - intro H. exists result. split; [exact Hres |].
    now destruct (ProcessingResult.success result).
  - intros (result' & Hres' & Hs). assert (result' = result) by congruence. subst.
    now rewrite Hs.
Qed.

(** X7: the response lists nothing exactly when every message of the batch
    succeeded, and it never lists more entries than the batch has messages. *)
Theorem no_failures_iff_all_succeed (event : SQSEvent.t) (context : Context.t)
        (response : SQSBatchResponse.t) :
  snd (invoke event context) = Returned response ->
  (SQSBatchResponse.batchItemFailures response = []
   <-> forall record, In record (SQSEvent.Records event) ->
         exists result, settle (processRecord record) = Fulfilled result
           /\ ProcessingResult.success result = true)
  /\ (List.length (SQSBatchResponse.batchItemFailures response)
      <= List.length (SQSEvent.Records event))%nat.
Proof.
  intro Hret. pose proof (invoke_returned_parses _ _ _ Hret) as Hp.
  rewrite (invoke_failures _ _ _ Hret). rewrite forallb_forall in Hp. split.
  - split.
    + intros Hnil record Hin. apply succeeds_iff_not_fails; auto.
      destruct (fails record) eqn:Hf; [| reflexivity].
      assert (Hin' : In record (List.filter fails (SQSEvent.Records event)))
        by (apply filter_In; auto).
      apply (in_map (fun r => SQSBatchItemFailure.mk (SQSRecord.messageId r))) in Hin'.
      rewrite Hnil in Hin'. destruct Hin'.
    + intro Hall.
      assert (Hnone : List.filter fails (SQSEvent.Records event) = []).
      { destruct (List.filter fails (SQSEvent.Records event)) as [| r rs] eqn:Hf;
          [reflexivity |].
        assert (Hr : In r (List.filter fails (SQSEvent.Records event)))
          by (rewrite Hf; now left).
        apply filter_In in Hr. destruct Hr as [Hin Hfails].
        pose proof (proj2 (succeeds_iff_not_fails r (Hp r Hin)) (Hall r Hin)). congruence. }
      now rewrite Hnone.
  - rewrite length_map. apply filter_length_le.
Qed.

Lemma no_failures_iff_all_succeed_witness :
  (List.length (SQSBatchResponse.batchItemFailures
                  (SQSBatchResponse.mk [SQSBatchItemFailure.mk (js "m-2");
                                        SQSBatchItemFailure.mk (js "m-3")]))
   <= List.length (SQSEvent.Records sample_event))%nat.
Proof.
  apply (no_failures_iff_all_succeed sample_event sample_context).
  vm_compute. reflexivity.
Defined.

(** X8: the response to a batch made of two batches one after the other
    lists the entries of the response to the first, then those of the
    response to the second; and the handler throws on the whole exactly when
    it throws on one of the two. *)
Theorem handler_batch_append (records1 records2 : list SQSRecord.t) (context : Context.t) :
  let outcome records := snd (invoke (SQSEvent.mk records) context) in
  (forall response1 response2,
     outcome records1 = Returned response1 ->
     outcome records2 = Returned response2 ->
     outcome (records1 ++ records2)
     = Returned (SQSBatchResponse.mk
                   (SQSBatchResponse.batchItemFailures response1
                      ++ SQSBatchResponse.batchItemFailures response2)))
  /\ (outcome (records1 ++ records2) = Thrown SyntaxError
      <-> outcome records1 = Thrown SyntaxError \/ outcome records2 = Thrown SyntaxError).
Proof.
  intro outcome. subst outcome. cbv beta. split.
  - intros response1 response2 H1 H2.
    pose proof (invoke_returned_parses _ _ _ H1) as Hp1.
    pose proof (invoke_returned_parses _ _ _ H2) as Hp2.
    rewrite (invoke_failures _ _ _ H1), (invoke_failures _ _ _ H2).
    rewrite invoke_returns; cbn [SQSEvent.Records] in *.
    + now rewrite filter_app, map_app.
    + rewrite forallb_app, Hp1, Hp2. reflexivity.
  - assert (Hthrows : forall records,
              snd (invoke (SQSEvent.mk records) context) = Thrown SyntaxError
              <-> forallb parses records = false).
    { intro records. destruct (forallb parses records) eqn:Hp.
      - rewrite (invoke_returns (SQSEvent.mk records) context Hp). split; discriminate.
      - destruct (invoke_some_unparsable (SQSEvent.mk records) context Hp) as [-> _].
        split; reflexivity. }
    rewrite !Hthrows, forallb_app.
    destruct (forallb parses records1), (forallb parses records2); simpl; intuition congruence.
Qed.

Lemma handler_batch_append_witness :
  snd (invoke (SQSEvent.mk ([timeout_record; ok_record] ++ [business_record; null_record]))
         sample_context)
  = Returned (SQSBatchResponse.mk
                ([SQSBatchItemFailure.mk (js "m-4")]
                   ++ [SQSBatchItemFailure.mk (js "m-2"); SQSBatchItemFailure.mk (js "m-5")])).
Proof.
  destruct (handler_batch_append [timeout_record; ok_record] [business_record; null_record]
              sample_context) as [Happ _].
  apply (Happ (SQSBatchResponse.mk [SQSBatchItemFailure.mk (js "m-4")])
              (SQSBatchResponse.mk [SQSBatchItemFailure.mk (js "m-2");
                                    SQSBatchItemFailure.mk (js "m-5")]));
    vm_compute; reflexivity.
Defined.

Lemma filter_Permutation {X : Type} (f : X -> bool) (xs ys : list X) :
  Permutation xs ys -> Permutation (List.filter f xs) (List.filter f ys).
Proof.
  induction 1 as [| x xs ys _ IH | x y xs | xs ys zs _ IH1 _ IH2]; simpl.
  - constructor.
  - destruct (f x); [now constructor | exact IH].
  - destruct (f x), (f y); try reflexivity. constructor.
  - now transitivity (List.filter f ys).
Qed.

Lemma forallb_Permutation {X : Type} (f : X -> bool) (xs ys : list X) :
  Permutation xs ys -> forallb f xs = true -> forallb f ys = true.
Proof.
  intros Hperm H. rewrite forallb_forall in *. intros y Hy. apply H.
  apply Permutation_sym in Hperm. exact (Permutation_in y Hperm Hy).
Qed.

(** X9: the order of delivery decides the order of the entries and nothing
    else: if the handler returns for a batch it returns for every
    rearrangement of the batch, and the entries of the two responses are
    the same up to their order. *)
Theorem handler_batch_permutation (event1 event2 : SQSEvent.t) (context1 context2 : Context.t)
        (response1 : SQSBatchResponse.t) :
  Permutation (SQSEvent.Records event1) (SQSEvent.Records event2) ->
  snd (invoke event1 context1) = Returned response1 ->
  exists response2,
    snd (invoke event2 context2) = Returned response2
    /\ Permutation (SQSBatchResponse.batchItemFailures response1)
         (SQSBatchResponse.batchItemFailures response2).
Proof.
  intros Hperm H1. pose proof (invoke_returned_parses _ _ _ H1) as Hp1.
  pose proof (forallb_Permutation _ _ _ Hperm Hp1) as Hp2.
  eexists. split; [exact (invoke_returns event2 context2 Hp2) |].
  rewrite (invoke_failures _ _ _ H1). cbn [SQSBatchResponse.batchItemFailures].
  apply Permutation_map. apply filter_Permutation. exact Hperm.
Qed.

Lemma handler_batch_permutation_witness :
  exists response2,
    snd (invoke (SQSEvent.mk [temporary_record; ok_record; business_record]) sample_context)
    = Returned response2
    /\ Permutation [SQSBatchItemFailure.mk (js "m-2"); SQSBatchItemFailure.mk (js "m-3")]
         (SQSBatchResponse.batchItemFailures response2).
Proof.
  apply (handler_batch_permutation sample_event
           (SQSEvent.mk [temporary_record; ok_record; business_record])
           sample_context sample_context
           (SQSBatchResponse.mk [SQSBatchItemFailure.mk (js "m-2");
                                 SQSBatchItemFailure.mk (js "m-3")])).
  - simpl. apply Permutation_sym.
    apply (Permutation_cons_app [ok_record; business_record] [] temporary_record).
    rewrite app_nil_r. reflexivity.
  - vm_compute. reflexivity.
Defined.

Lemma count_occ_map_filter {X : Type} (id : X -> jsstring) (select : X -> bool)
      (xs : list X) (k : jsstring) :
  count_occ (list_eq_dec N.eq_dec) (List.map id (List.filter select xs)) k
  = List.length (List.filter (fun x => select x && jsstring_eqb (id x) k) xs).
Proof.
  induction xs as [| x xs IH]; simpl; [reflexivity |].
  destruct (select x); simpl; [| exact IH].
  unfold jsstring_eqb at 1.
  destruct (list_eq_dec N.eq_dec (id x) k); simpl; now rewrite IH.
Qed.

(** X10: the handler does not merge entries: an identifier is listed as many
    times as the batch holds failing records that carry it, also when two
    records of the batch share an identifier. *)
Theorem listed_once_per_failing_record (event : SQSEvent.t) (context : Context.t)
        (response : SQSBatchResponse.t) (id : jsstring) :
  snd (invoke event context) = Returned response ->
  count_occ (list_eq_dec N.eq_dec) (failed_ids response) id
  = List.length
      (List.filter (fun record => fails record && jsstring_eqb (SQSRecord.messageId record) id)
         (SQSEvent.Records event)).
Proof.
  intro Hret. rewrite (invoke_failed_ids _ _ _ Hret). apply count_occ_map_filter.
Qed.

Lemma listed_once_per_failing_record_witness :
  count_occ (list_eq_dec N.eq_dec)
    (failed_ids (SQSBatchResponse.mk [SQSBatchItemFailure.mk (js "m-2");
                                      SQSBatchItemFailure.mk (js "m-2")]))
    (js "m-2")
  = 2%nat.
Proof.
  apply (listed_once_per_failing_record
           (SQSEvent.mk [business_record; ok_record; business_record_again]) sample_context).
  vm_compute. reflexivity.
Defined.

(** ** Which payloads succeed *)

Lemma strict_eq_false (v : JSValue) (literal : jsstring) :
  strict_eq v literal = false <-> v <> JString literal.
Proof.
  split.
  - intros H Hv. apply strict_eq_true in Hv. congruence.
  - intro H. destruct (strict_eq v literal) eqn:He; [| reflexivity].
    apply strict_eq_true in He. contradiction.
Qed.

(** X11: a record is processed successfully exactly when its body parses, to
    a payload that is not [null] and is not an object whose [type] member is
    one of the strings ['business-error'], ['temporary-error'], ['timeout'].
    So an array, a string, a number or a boolean succeeds, and so does an
    object without a [type] member or whose [type] is not a string. *)
Theorem processRecord_succeeds_iff (record : SQSRecord.t) :
  (exists result,
     settle (processRecord record) = Fulfilled result
     /\ ProcessingResult.success result = true)
  <-> exists v,
        JSON.parse (SQSRecord.body record) = Some v
        /\ v <> JNull
        /\ forall members, v = JObject members ->
             lookup (js "type") members <> JString (js "business-error")
             /\ lookup (js "type") members <> JString (js "temporary-error")
             /\ lookup (js "type") members <> JString (js "timeout").
Proof.
  split.
  - intros (result & Hres & Hs).
    destruct (JSON.parse (SQSRecord.body record)) as [v |] eqn:Hparse.
    + exists v. split; [reflexivity |].
      pose proof (settle_by_cases record v Hparse) as Hc. cbv zeta in Hc.
      rewrite Hres in Hc. injection Hc as Hc. subst result.
      destruct (is_nullish v) eqn:Hn; [discriminate |].
      destruct (type_is v (js "business-error")) eqn:Hb; [discriminate |].
      destruct (type_is v (js "temporary-error")) eqn:Hte; [discriminate |].
      destruct (type_is v (js "timeout")) eqn:Hti; [discriminate |].
      split; [intro; subst v; discriminate |].
      intros members ->. unfold type_is in Hb, Hte, Hti. simpl in Hb, Hte, Hti.
      repeat split; now apply strict_eq_false.
    + assert (Hp : parses record = false) by (now apply parses_false_iff).
      rewrite (processRecord_unparsable record Hp) in Hres. discriminate.
  - intros (v & Hparse & Hnn & Hobj).
    pose proof (JSON_parse_defined _ _ Hparse) as Hdef.
    pose proof (settle_by_cases record v Hparse) as Hc. cbv zeta in Hc.
    assert (Hn : is_nullish v = false) by (destruct v; try reflexivity; congruence).
    assert (Ht : forall literal,
              (forall members, v = JObject members ->
                 lookup (js "type") members <> JString literal) ->
              type_is v literal = false).
    { intros literal Hl. unfold type_is.
      destruct v; try reflexivity; simpl.
      apply strict_eq_false. now apply Hl. }
    rewrite Hn in Hc.
    rewrite (Ht (js "business-error")) in Hc by (intros m Hm; apply (Hobj m Hm)).
    rewrite (Ht (js "temporary-error")) in Hc by (intros m Hm; apply (Hobj m Hm)).
    rewrite (Ht (js "timeout")) in Hc by (intros m Hm; apply (Hobj m Hm)).
    eexists. split; [exact Hc | reflexivity].
Qed.

Lemma processRecord_succeeds_iff_witness :
  exists result,
    settle (processRecord (sample_record "m-7" (js "[1, 2]") "1")) = Fulfilled result
    /\ ProcessingResult.success result = true.
Proof.
  apply (proj2 (processRecord_succeeds_iff (sample_record "m-7" (js "[1, 2]") "1"))).
  exists (JArray [JNumber (js "1"); JNumber (js "2")]).
  split; [vm_compute; reflexivity |]. split; [discriminate |].
  intros members Hm. discriminate Hm.
Defined.

(** ** Bodies of the form [{"type":"..."}] *)







(** ** When the lines are written *)

Lemma record_type_is_parse (record : SQSRecord.t) (v : JSValue) (literal : jsstring) :
  JSON.parse (SQSRecord.body record) = Some v ->
  record_type_is record literal = type_is v literal.
Proof. unfold record_type_is. now intros ->. Qed.

(** X13: in an invocation that returns, the line of each record is written
    at time 0, during the call of [processRecord], unless the record is a
    [timeout] message: then it is written at time 5000, when its timer has
    fired. *)
Theorem processing_line_time (event : SQSEvent.t) (context : Context.t)
        (response : SQSBatchResponse.t) (record : SQSRecord.t) :
  snd (invoke event context) = Returned response ->
  In record (SQSEvent.Records event) ->
  exists entry,
    logs (processRecord record) = [entry]
    /\ In (if record_type_is record (js "timeout") then 5000 else 0, entry)
          (console (fst (invoke event context))).
Proof.
  intros Hret Hin. pose proof (invoke_returned_parses _ _ _ Hret) as Hp.
  assert (Hpr : parses record = true) by (rewrite forallb_forall in Hp; auto).
  destruct literals_distinct as (H1 & H2 & _).
  assert (Hearly : forall entry result,
            processRecord record = Console entry (Return result) ->
            logs (processRecord record) = [entry]
            /\ In (0, entry) (console (fst (invoke event context)))).
  { intros entry result Hs. split; [now rewrite Hs |].
    apply (invoke_sync_console event context record entry Hin). rewrite Hs. now left. }
  unfold parses in Hpr.
  destruct (JSON.parse (SQSRecord.body record)) as [v |] eqn:Hparse; [| discriminate].
  rewrite (record_type_is_parse record v _ Hparse).
  pose proof (processRecord_eq record) as Heq. unfold processRecord_by_cases in Heq.
  rewrite Hparse in Heq.
  destruct (is_nullish v) eqn:Hn.
  { rewrite (type_is_nullish v _ Hn). eexists. exact (Hearly _ _ Heq). }
  destruct (type_is v (js "business-error")) eqn:Hb.
  { destruct (type_is v (js "timeout")) eqn:Hti.
    - elim H1. exact (type_is_functional v _ _ Hb Hti).
    - eexists. exact (Hearly _ _ Heq). }
  destruct (type_is v (js "temporary-error")) eqn:Hte.
  { destruct (type_is v (js "timeout")) eqn:Hti.
    - elim H2. exact (type_is_functional v _ _ Hte Hti).
    - eexists. exact (Hearly _ _ Heq). }
  destruct (type_is v (js "timeout")) eqn:Hti.
  - eexists. split; [rewrite Heq; reflexivity |].
    rewrite (invoke_all_parse event context Hp). unfold console_of. cbn [fst console].
    right. apply in_or_app. right. apply in_or_app. left.
    apply in_map. apply in_flat_map. exists record. split; [exact Hin |].
    rewrite Heq. now left.
  - eexists. exact (Hearly _ _ Heq).
Qed.

Lemma processing_line_time_witness :
  exists entry,
    logs (processRecord timeout_record) = [entry]
    /\ In (5000, entry) (console (fst (invoke mixed_event sample_context))).
Proof.
  apply (processing_line_time mixed_event sample_context
           (SQSBatchResponse.mk [SQSBatchItemFailure.mk (js "m-4");
                                 SQSBatchItemFailure.mk (js "m-2");
                                 SQSBatchItemFailure.mk (js "m-5")])
           timeout_record).
  - vm_compute. reflexivity.
  - left. reflexivity.
Defined.

Lemma prefix_logs_not_report (record : SQSRecord.t) (entry : LogEntry)
      (result : ProcessingResult.t) :
  In entry (prefix_logs (processRecord record)) -> entry <> report result.
Proof.
  assert (Hr : exists parts, report result = console_log [template parts]).
  { unfold report. destruct (ProcessingResult.success result);
      [| destruct (instanceof_BusinessLogicError (ProcessingResult.error result));
         [| destruct (instanceof_TemporaryError (ProcessingResult.error result))]];
      eexists; reflexivity. }
  destruct Hr as (parts & ->).
  rewrite processRecord_eq. unfold processRecord_by_cases.
  destruct (JSON.parse (SQSRecord.body record)) as [v |]; [| intros []].
  payload_cases v; simpl; intro H;
    try (destruct H as [<- | []]; discriminate); destruct H.
Qed.

(** X14: when the body of some record does not parse, the handler throws at
    time 0, before any timer has fired and before it has written a line about
    any result: the console holds the line with the batch size and the lines
    of the records that were processed without waiting, all at time 0, and
    no message is reported as processed, as retried or as bound for the
    DLQ. *)
Theorem handler_throws_before_reporting (event : SQSEvent.t) (context : Context.t)
        (record : SQSRecord.t) :
  In record (SQSEvent.Records event) ->
  JSON.parse (SQSRecord.body record) = None ->
  snd (invoke event context) = Thrown SyntaxError
  /\ now (fst (invoke event context)) = 0
  /\ console (fst (invoke event context))
     = (0, console_log [LString (js "Processing batch of:");
                        LNumber (List.length (SQSEvent.Records event))])
         :: List.map (pair 0)
              (flat_map (fun r => prefix_logs (processRecord r)) (SQSEvent.Records event))
  /\ forall t result, ~ In (t, report result) (console (fst (invoke event context))).
Proof.
  intros Hin Hnone.
  assert (Hp : forallb parses (SQSEvent.Records event) = false).
  { apply forallb_parses_false. exists record. auto. }
  destruct (invoke_some_unparsable event context Hp) as [Ht Hnow].
  pose proof (invoke_some_unparsable_loop event context Hp) as Hloop.
  split; [exact Ht |]. split; [exact Hnow |]. rewrite Hloop. cbn [console].
  split; [reflexivity |].
  intros t result [Hbatch | Hsync].
  - injection Hbatch as _ Hbatch. revert Hbatch. unfold report.
    destruct (ProcessingResult.success result);
      [| destruct (instanceof_BusinessLogicError (ProcessingResult.error result));
         [| destruct (instanceof_TemporaryError (ProcessingResult.error result))]];
      discriminate.
  - apply in_map_iff in Hsync. destruct Hsync as (entry & Heq & Hentry).
    injection Heq as _ ->. apply in_flat_map in Hentry.
    destruct Hentry as (r & _ & Hr).
    exact (prefix_logs_not_report r _ result Hr eq_refl).
Qed.

Lemma handler_throws_before_reporting_witness :
  snd (invoke (SQSEvent.mk [timeout_record; unparsable_record; business_record])
         sample_context)
  = Thrown SyntaxError
  /\ now (fst (invoke (SQSEvent.mk [timeout_record; unparsable_record; business_record])
                 sample_context)) = 0.
Proof.
  destruct (handler_throws_before_reporting
              (SQSEvent.mk [timeout_record; unparsable_record; business_record])
              sample_context unparsable_record) as (Ht & Hnow & _).
  - right. left. reflexivity.
  - vm_compute. reflexivity.
  - split; [exact Ht | exact Hnow].
Defined.
